(** * SubConvert: a shallow embedding of [get_suburl.py] and [subcon.py]

    The two scripts fetch "airport" dashboards, dig the subscription link out
    of the page, fetch and decode the subscription, merge node lines and build
    converter URLs.  This development embeds the functions of both files and
    proves (or refutes) what the specification says about them.

    Layout: part I holds the definitions (Python text primitives, the
    exception/state monad, the regular-expression engine, the codecs of the
    standard library, then one module per source file); part II holds the
    lemmas and theorems. *)

From Stdlib Require Import NArith ZArith Ascii String Lia ZifyBool Bool.
From stdpp Require Import base option list strings gmap.

Set Default Proof Using "Type".
#[local] Set Warnings "-clear-no-such-hyp".

(** ** Python text

    A Python [str] is a sequence of Unicode code points; a code point is a
    number, so a [str] is a [list N].  [bytes] are lists of numbers below 256. *)

Abbreviation str := (list N) (only parsing).
Abbreviation bytes := (list N) (only parsing).

Definition ch (a : ascii) : N := N_of_ascii a.
Arguments ch a%_char.

(** A string literal of the source, read as code points (ASCII literals only). *)
Definition py (s : string) : str := N_of_ascii <$> list_ascii_of_string s.
Arguments py s%_string.

(** The double quote, which a literal cannot hold. *)
Definition dq : N := 34%N.
(** The single quote. *)
Definition sq : N := 39%N.

(** [str.isspace] on one code point: CPython's [_PyUnicode_IsWhitespace]. *)
Definition isspace (c : N) : bool :=
  ((9 <=? c) && (c <=? 13))%N || ((28 <=? c) && (c <=? 32))%N
  || (c =? 0x85)%N || (c =? 0xA0)%N || (c =? 0x1680)%N
  || ((0x2000 <=? c) && (c <=? 0x200A))%N
  || (c =? 0x2028)%N || (c =? 0x2029)%N || (c =? 0x202F)%N
  || (c =? 0x205F)%N || (c =? 0x3000)%N.

Fixpoint lstrip (s : str) : str :=
  match s with
  | c :: s' => if isspace c then lstrip s' else s
  | [] => []
  end.

Definition rstrip (s : str) : str := reverse (lstrip (reverse s)).

(** [s.strip()] *)
Definition strip (s : str) : str := rstrip (lstrip s).

(** [s.split(sep)] for a separator of one character. *)
Fixpoint split (sep : N) (s : str) : list str :=
  match s with
  | [] => [[]]
  | c :: s' =>
      if (c =? sep)%N then [] :: split sep s'
      else match split sep s' with
           | h :: t => (c :: h) :: t
           | [] => [[c]]
           end
  end.

(** The line boundaries of [str.splitlines]. *)
Definition is_linebreak (c : N) : bool :=
  ((10 <=? c) && (c <=? 13))%N || ((0x1C <=? c) && (c <=? 0x1E))%N
  || (c =? 0x85)%N || (c =? 0x2028)%N || (c =? 0x2029)%N.

Fixpoint splitlines_from (cur : str) (s : str) : list str :=
  match s with
  | [] => match cur with [] => [] | _ => [reverse cur] end
  | c :: s' =>
      if is_linebreak c then
        reverse cur ::
          match s' with
          | c' :: s'' =>
              if ((c =? 13) && (c' =? 10))%N then splitlines_from [] s''
              else splitlines_from [] s'
          | [] => splitlines_from [] s'
          end
      else splitlines_from (c :: cur) s'
  end.

(** [s.splitlines()] *)
Definition splitlines (s : str) : list str := splitlines_from [] s.

(** [sep.join(l)] *)
Fixpoint join (sep : str) (l : list str) : str :=
  match l with
  | [] => []
  | [x] => x
  | x :: l' => x ++ sep ++ join sep l'
  end.

(** [s.startswith(p)] *)
Fixpoint startswith (p s : str) : bool :=
  match p, s with
  | [], _ => true
  | a :: p', b :: s' => (a =? b)%N && startswith p' s'
  | _ :: _, [] => false
  end.

(** [needle in hay] on strings. *)
Fixpoint contains (needle hay : str) : bool :=
  startswith needle hay ||
  match hay with
  | [] => false
  | _ :: hay' => contains needle hay'
  end.

(** [c in s] for one character. *)
Definition has_char (c : N) (s : str) : bool := existsb (N.eqb c) s.

Definition is_ascii (c : N) : bool := (c <? 128)%N.

Definition ascii_lower (c : N) : N :=
  if ((65 <=? c) && (c <=? 90))%N then (c + 32)%N else c.

(** [bool(s)] of a string: the empty string is the only falsy one. *)
Definition truthy (s : str) : bool := match s with [] => false | _ => true end.

(** ** Exceptions

    What the two scripts can see of an exception is its class: [subcon.py]
    tells [requests.RequestException] from the other subclasses of
    [Exception].  [BaseException]s outside [Exception] (a keyboard interrupt)
    are not modelled. *)

Inductive exn : Type :=
| RequestException      (** [requests.RequestException] (connection, timeout, ...) *)
| HTTPError (status : N) (** raised by [raise_for_status]; a [RequestException] *)
| BinasciiError         (** [binascii.Error] *)
| ValueError
| UnicodeDecodeError
| UnicodeEncodeError
| IndexError
| DebuggingStop         (** [Exception("Debugging stop")] *)
| OtherException.       (** any other subclass of [Exception] raised by a library *)

Definition is_RequestException (e : exn) : bool :=
  match e with
  | RequestException | HTTPError _ => true
  | _ => false
  end.

(** The outcome of a call: a value, or a raised exception. *)
Inductive result (A : Type) : Type :=
| Ret (a : A)
| Raise (e : exn).
Arguments Ret {A} a.
Arguments Raise {A} e.

#[global] Instance result_ret : MRet result := @Ret.
#[global] Instance result_bind : MBind result := λ A B f r,
  match r with
  | Ret a => f a
  | Raise e => Raise e
  end.

(** ** Regular expressions

    The fragment of Python's [re] syntax that the patterns of the two files
    use: literals, character classes, greedy [*], [+] on a class, greedy [?],
    alternation, concatenation and one capturing group.  The matcher is the
    backtracking matcher of [re]: alternatives are tried in order, repetitions
    take as much as they can and give back one character at a time, and the
    first way that lets the rest of the pattern match is the result. *)

Inductive regex : Type :=
| Lit (s : str)              (** the text [s] *)
| Cls (p : N → bool)         (** one character of the class [p] *)
| Star (p : N → bool)        (** [[p]*] *)
| Plus (p : N → bool)        (** [[p]+] *)
| Opt (r : regex)            (** [r?] *)
| Alt (r1 r2 : regex)        (** [r1|r2] *)
| Seq (r1 r2 : regex)        (** [r1 r2] *)
| Group (r : regex).         (** [(r)], group 1 *)

(** A pattern written as the sequence of its pieces. *)
Definition seq_of (rs : list regex) : regex := foldr Seq (Lit []) rs.

(** Greedy repetition of a class, then the continuation [k]; on failure of
    [k] one character is given back. *)
Fixpoint star {A} (p : N → bool) (s : str) (k : str → option A) : option A :=
  match s with
  | c :: s' =>
      if p c then
        match star p s' k with
        | Some x => Some x
        | None => k s
        end
      else k s
  | [] => k []
  end.

(** [rmatch r s g k]: match [r] at the start of [s] with group 1 currently
    [g], then continue with [k] on what is left. *)
Fixpoint rmatch {A} (r : regex) (s : str) (g : option str)
    (k : str → option str → option A) : option A :=
  match r with
  | Lit l => if startswith l s then k (drop (length l) s) g else None
  | Cls p =>
      match s with
      | c :: s' => if p c then k s' g else None
      | [] => None
      end
  | Star p => star p s (λ s', k s' g)
  | Plus p =>
      match s with
      | c :: s' => if p c then star p s' (λ s', k s' g) else None
      | [] => None
      end
  | Opt r1 =>
      match rmatch r1 s g k with
      | Some x => Some x
      | None => k s g
      end
  | Alt r1 r2 =>
      match rmatch r1 s g k with
      | Some x => Some x
      | None => rmatch r2 s g k
      end
  | Seq r1 r2 => rmatch r1 s g (λ s' g', rmatch r2 s' g' k)
  | Group r1 =>
      rmatch r1 s g (λ s' _, k s' (Some (take (length s - length s') s)))
  end.

(** A match object: [group(0)], [group(1)] and the text after the match. *)
Record rematch : Type := ReMatch {
  group0 : str;
  group1 : option str;
  after : str
}.

(** [re.match]: the pattern at the start of [s]. *)
Definition match_at (r : regex) (s : str) : option rematch :=
  rmatch r s None (λ s' g, Some (ReMatch (take (length s - length s') s) g s')).

(** [re.search]: the leftmost position at which the pattern matches. *)
Fixpoint search (r : regex) (s : str) : option rematch :=
  match match_at r s with
  | Some m => Some m
  | None =>
      match s with
      | [] => None
      | _ :: s' => search r s'
      end
  end.

(** [re.finditer]: the matches from left to right, each search starting where
    the previous match ended.  [skip] counts the characters of the previous
    match still to step over.  (None of the patterns here matches the empty
    string, so Python's rule for empty matches never applies.) *)
Fixpoint finditer_from (r : regex) (skip : nat) (s : str) : list rematch :=
  match skip with
  | S n =>
      match s with
      | [] => []
      | _ :: s' => finditer_from r n s'
      end
  | O =>
      match match_at r s with
      | Some m =>
          m :: match s with
               | [] => []
               | _ :: s' => finditer_from r (length (group0 m) - 1) s'
               end
      | None =>
          match s with
          | [] => []
          | _ :: s' => finditer_from r 0 s'
          end
      end
  end.

Definition finditer (r : regex) (s : str) : list rematch := finditer_from r 0 s.

(** Character classes of the patterns. *)
Definition not_dq (c : N) : bool := negb (c =? dq)%N.
(** The class of pattern1: no whitespace, no angle bracket, no double or
    single quote. *)
Definition url_char (c : N) : bool :=
  negb (isspace c || (c =? ch "<")%N || (c =? ch ">")%N || (c =? dq)%N || (c =? sq)%N).
(** The class of the patterns of subcon.py: no whitespace, no angle bracket,
    no double quote. *)
Definition url_char2 (c : N) : bool :=
  negb (isspace c || (c =? ch "<")%N || (c =? ch ">")%N || (c =? dq)%N).
(** The same class without the question mark. *)
Definition url_char3 (c : N) : bool :=
  negb (isspace c || (c =? ch "<")%N || (c =? ch ">")%N || (c =? dq)%N || (c =? ch "?")%N).

(** ** Codecs of the standard library *)

(** [s.encode('utf-8')]: surrogates (and numbers that are no code point) raise
    [UnicodeEncodeError]. *)
Definition utf8_encode_char (c : N) : result bytes :=
  if (c <? 0x80)%N then Ret [c]
  else if (c <? 0x800)%N then Ret [0xC0 + c / 64; 0x80 + c mod 64]%N
  else if (c <? 0x10000)%N then
    if ((0xD800 <=? c) && (c <=? 0xDFFF))%N then Raise UnicodeEncodeError
    else Ret [0xE0 + c / 4096; 0x80 + (c / 64) mod 64; 0x80 + c mod 64]%N
  else if (c <? 0x110000)%N then
    Ret [0xF0 + c / 262144; 0x80 + (c / 4096) mod 64;
         0x80 + (c / 64) mod 64; 0x80 + c mod 64]%N
  else Raise UnicodeEncodeError.

Fixpoint utf8_encode (s : str) : result bytes :=
  match s with
  | [] => Ret []
  | c :: s' =>
      b ← utf8_encode_char c;
      bs ← utf8_encode s';
      Ret (b ++ bs)
  end.

(** A continuation byte. *)
Definition cont (b : N) : bool := ((0x80 <=? b) && (b <=? 0xBF))%N.

(** [b.decode('utf-8')]: the strict decoder (overlong forms, surrogates and
    values above U+10FFFF raise [UnicodeDecodeError]). *)
Fixpoint utf8_decode (bs : bytes) : result str :=
  match bs with
  | [] => Ret []
  | b0 :: r0 =>
      if (b0 <? 0x80)%N then s ← utf8_decode r0; Ret (b0 :: s)
      else if ((0xC2 <=? b0) && (b0 <=? 0xDF))%N then
        match r0 with
        | b1 :: r1 =>
            if cont b1 then
              s ← utf8_decode r1;
              Ret (((b0 - 0xC0) * 64 + (b1 - 0x80))%N :: s)
            else Raise UnicodeDecodeError
        | _ => Raise UnicodeDecodeError
        end
      else if ((0xE0 <=? b0) && (b0 <=? 0xEF))%N then
        match r0 with
        | b1 :: b2 :: r2 =>
            let c := ((b0 - 0xE0) * 4096 + (b1 - 0x80) * 64 + (b2 - 0x80))%N in
            if cont b1 && cont b2 && (0x800 <=? c)%N
               && negb ((0xD800 <=? c) && (c <=? 0xDFFF))%N
            then s ← utf8_decode r2; Ret (c :: s)
            else Raise UnicodeDecodeError
        | _ => Raise UnicodeDecodeError
        end
      else if ((0xF0 <=? b0) && (b0 <=? 0xF4))%N then
        match r0 with
        | b1 :: b2 :: b3 :: r3 =>
            let c := ((b0 - 0xF0) * 262144 + (b1 - 0x80) * 4096
                      + (b2 - 0x80) * 64 + (b3 - 0x80))%N in
            if cont b1 && cont b2 && cont b3 && (0x10000 <=? c)%N
               && (c <? 0x110000)%N
            then s ← utf8_decode r3; Ret (c :: s)
            else Raise UnicodeDecodeError
        | _ => Raise UnicodeDecodeError
        end
      else Raise UnicodeDecodeError
  end.

(** The base64 alphabet: [binascii]'s table from 6-bit value to character. *)
Definition b64_char (n : N) : N :=
  if (n <? 26)%N then (65 + n)%N
  else if (n <? 52)%N then (97 + (n - 26))%N
  else if (n <? 62)%N then (48 + (n - 52))%N
  else if (n =? 62)%N then ch "+"
  else ch "/".

(** The table from character to 6-bit value; [None] outside the alphabet. *)
Definition b64_value (c : N) : option N :=
  if ((65 <=? c) && (c <=? 90))%N then Some (c - 65)%N
  else if ((97 <=? c) && (c <=? 122))%N then Some (c - 97 + 26)%N
  else if ((48 <=? c) && (c <=? 57))%N then Some (c - 48 + 52)%N
  else if (c =? ch "+")%N then Some 62%N
  else if (c =? ch "/")%N then Some 63%N
  else None.

(** [base64.b64encode(bs)] (as text: the source decodes its ASCII bytes). *)
Fixpoint b64encode (bs : bytes) : str :=
  match bs with
  | [] => []
  | b0 :: r0 =>
      match r0 with
      | [] => [b64_char (b0 / 4); b64_char ((b0 mod 4) * 16); ch "="; ch "="]%N
      | b1 :: r1 =>
          match r1 with
          | [] =>
              [b64_char (b0 / 4); b64_char ((b0 mod 4) * 16 + b1 / 16);
               b64_char ((b1 mod 16) * 4); ch "="]%N
          | b2 :: r2 =>
              [b64_char (b0 / 4); b64_char ((b0 mod 4) * 16 + b1 / 16);
               b64_char ((b1 mod 16) * 4 + b2 / 64); b64_char (b2 mod 64)]%N
              ++ b64encode r2
          end
      end
  end.

(** [binascii.a2b_base64] in its default, non-strict mode, as CPython's loop:
    characters outside the alphabet are skipped; a pad character counts only
    once two characters of the quad are read, and ends the input when the quad
    is complete with it; an input that ends inside a quad raises
    [binascii.Error].  [quad_pos] is the position in the current quad,
    [leftchar] the bits left over from it, [pads] the pad characters seen
    since the last character of the alphabet. *)
Fixpoint a2b_base64_loop (s : bytes) (quad_pos : nat) (leftchar : N) (pads : nat)
    : result bytes :=
  match s with
  | [] => match quad_pos with O => Ret [] | _ => Raise BinasciiError end
  | c :: s' =>
      if (c =? ch "=")%N then
        if (2 <=? quad_pos) && (4 <=? quad_pos + S pads) then Ret []
        else a2b_base64_loop s' quad_pos leftchar
               (if 2 <=? quad_pos then S pads else pads)
      else
        match b64_value c with
        | None => a2b_base64_loop s' quad_pos leftchar pads
        | Some v =>
            match quad_pos with
            | 0 => a2b_base64_loop s' 1 v 0
            | 1 =>
                bs ← a2b_base64_loop s' 2 (v mod 16)%N 0;
                Ret ((leftchar * 4 + v / 16)%N :: bs)
            | 2 =>
                bs ← a2b_base64_loop s' 3 (v mod 4)%N 0;
                Ret ((leftchar * 16 + v / 4)%N :: bs)
            | _ =>
                bs ← a2b_base64_loop s' 0 0%N 0;
                Ret ((leftchar * 64 + v)%N :: bs)
            end
        end
  end.

(** [base64.b64decode(s)] of a [str]: text with a character outside ASCII
    raises [ValueError]; the rest is [a2b_base64]. *)
Definition b64decode (s : str) : result bytes :=
  if forallb is_ascii s then a2b_base64_loop s 0 0%N 0 else Raise ValueError.

(** [urllib.parse.quote_plus]: the bytes it leaves as they are. *)
Definition always_safe (b : N) : bool :=
  ((65 <=? b) && (b <=? 90))%N || ((97 <=? b) && (b <=? 122))%N
  || ((48 <=? b) && (b <=? 57))%N
  || (b =? ch "_")%N || (b =? ch ".")%N || (b =? ch "-")%N || (b =? ch "~")%N.

Definition hex_digit (n : N) : N :=
  if (n <? 10)%N then (48 + n)%N else (65 + (n - 10))%N.

Definition quote_byte (b : N) : str :=
  if (b =? 32)%N then [ch "+"]
  else if always_safe b then [b]
  else [ch "%"; hex_digit (b / 16); hex_digit (b mod 16)].

(** [urllib.parse.quote_plus(s)] with the defaults [urlencode] passes
    ([safe] empty, UTF-8, strict errors). *)
Definition quote_plus (s : str) : result str :=
  bs ← utf8_encode s; Ret (mjoin (quote_byte <$> bs)).

(** [urllib.parse.urlencode(params)] of a dict of strings, in the dict's
    (insertion) order. *)
Fixpoint urlencode_items (params : list (str * str)) : result (list str) :=
  match params with
  | [] => Ret []
  | (k, v) :: rest =>
      k' ← quote_plus k;
      v' ← quote_plus v;
      l ← urlencode_items rest;
      Ret ((k' ++ py "=" ++ v') :: l)
  end.

Definition urlencode (params : list (str * str)) : result str :=
  l ← urlencode_items params; Ret (join (py "&") l).

(** The reverse of [quote_plus] on the receiving side (what
    [urllib.parse.unquote_plus] does, up to the bytes): [+] is a space,
    a percent sign and two hexadecimal digits are a byte. *)
Definition hex_value (c : N) : option N :=
  if ((48 <=? c) && (c <=? 57))%N then Some (c - 48)%N
  else if ((65 <=? c) && (c <=? 70))%N then Some (c - 55)%N
  else if ((97 <=? c) && (c <=? 102))%N then Some (c - 87)%N
  else None.

Fixpoint unquote_plus_to_bytes (s : str) : bytes :=
  match s with
  | [] => []
  | c :: s' =>
      if (c =? ch "+")%N then 32%N :: unquote_plus_to_bytes s'
      else if (c =? ch "%")%N then
        match s' with
        | h1 :: h2 :: s'' =>
            match hex_value h1, hex_value h2 with
            | Some a, Some b => (a * 16 + b)%N :: unquote_plus_to_bytes s''
            | _, _ => c :: unquote_plus_to_bytes s'
            end
        | _ => c :: unquote_plus_to_bytes s'
        end
      else c :: unquote_plus_to_bytes s'
  end.

(** ** The world outside the scripts

    The libraries the scripts call and the network they talk to are taken as
    an interface.  A request changes the [world] it runs in and either
    returns a response or raises. *)

Record response : Type := Response {
  status_code : N;
  text : str
}.

Class Env : Type := {
  world : Type;
  (** The parse tree of [bs4]. *)
  soup : Type;
  (** [str.lower] on text with a character outside ASCII (the Unicode tables). *)
  unicode_lower : str → str;
  (** [requests.get(url, headers=headers, timeout=30)] *)
  requests_get : str → list (str * str) → world → result response * world;
  (** [curl_cffi.requests.get(url, headers=, cookies=, impersonate=, timeout=15)] *)
  curl_cffi_get :
    str → list (str * str) → gmap (list N) (list N) → world → result response * world;
  (** [BeautifulSoup(html, 'html.parser')] *)
  BeautifulSoup : str → result soup;
  (** [link['href'] for link in soup.find_all('a', href=True)], in document order *)
  find_all_a_href : soup → list str;
  prettify : soup → str;
  (** [urllib.parse.urljoin(base, url)] *)
  urljoin : str → str → result str;
  (** [os.getenv('SUBCONVERT_URL', 'http://65.49.200.39:25500/sub')] *)
  SUBCONVERT_URL : str
}.

(** What the scripts write: log records (level, the message as the source
    spells it, the values put into its braces) and printed text. *)
Inductive level : Type := INFO | WARNING | ERROR.

Inductive value : Type :=
| VStr (s : str)
| VNum (n : N)
| VExn (e : exn).

Inductive event : Type :=
| Log (lvl : level) (template : string) (args : list value)
| Print (s : str).

Section Effects.
Context `{Env}.

Record state : Type := State {
  net : world;
  log : list event
}.

(** A computation: it reads and changes the state and returns or raises. *)
Definition M (A : Type) : Type := state → result A * state.

#[global] Instance M_ret : MRet M := λ A a st, (Ret a, st).
#[global] Instance M_bind : MBind M := λ A B f m st,
  match m st with
  | (Ret a, st') => f a st'
  | (Raise e, st') => (Raise e, st')
  end.

Definition raise {A} (e : exn) : M A := λ st, (Raise e, st).

(** A library call without effect on the state. *)
Definition lift {A} (r : result A) : M A := λ st, (r, st).

(** [try: body except Exception as e: handler(e)] *)
Definition try_except {A} (body : M A) (handler : exn → M A) : M A := λ st,
  match body st with
  | (Ret a, st') => (Ret a, st')
  | (Raise e, st') => handler e st'
  end.

Definition logger (lvl : level) (template : string) (args : list value) : M unit :=
  λ st, (Ret (), State (net st) (log st ++ [Log lvl template args])).

Definition print (s : str) : M unit :=
  λ st, (Ret (), State (net st) (log st ++ [Print s])).

(** A request to the network. *)
Definition http (call : world → result response * world) : M response := λ st,
  let (r, w) := call (net st) in (r, State w (log st)).

(** [response.raise_for_status()] *)
Definition raise_for_status (r : response) : M unit :=
  if ((400 <=? status_code r) && (status_code r <? 600))%N
  then raise (HTTPError (status_code r))
  else mret ().

(** [s.lower()] *)
Definition lower (s : str) : str :=
  if forallb is_ascii s then ascii_lower <$> s else unicode_lower s.

(** [any(keyword in url.lower() for keyword in ['link', 'subscribe', 'sub'])] *)
Definition has_keyword (url : str) : bool :=
  existsb (λ keyword, contains keyword (lower url))
          [py "link"; py "subscribe"; py "sub"].

End Effects.

(** [l[i]] *)
Definition index {A} (l : list A) (i : nat) : result A :=
  match l !! i with
  | Some x => Ret x
  | None => Raise IndexError
  end.

(** [bool(x)] of a value that is a string or [None]. *)
Definition truthy_opt (o : option (list N)) : bool :=
  match o with
  | Some s => truthy s
  | None => false
  end.

(** * get_suburl.py *)

Module GetSuburl.

(** The dict comprehension of [parse_cookie_string]: the items are visited in
    order and a later item replaces an earlier one with the same key. *)
Fixpoint cookie_dict (items : list str) (d : gmap (list N) (list N))
    : result (gmap (list N) (list N)) :=
  match items with
  | [] => Ret d
  | item :: rest =>
      if has_char (ch "=") item then
        k ← index (split (ch "=") item) 0;
        v ← index (split (ch "=") item) 1;
        cookie_dict rest (<[strip k := strip v]> d)
      else cookie_dict rest d
  end.

Definition parse_cookie_string (cookie_str : str) : result (gmap (list N) (list N)) :=
  if negb (truthy cookie_str) then Ret ∅
  else cookie_dict (split (ch ";") cookie_str) ∅.

(** The [headers] dict of [get_subscription_from_airport]. *)
Definition headers (user_agent : str) : list (str * str) :=
  [(py "User-Agent",
    if truthy user_agent then user_agent
    else py "Mozilla/5.0 (Macintosh; Intel Mac OS X 10_15_7) AppleWebKit/537.36");
   (py "Accept",
    py "text/html,application/xhtml+xml,application/xml;q=0.9,*/*;q=0.8");
   (py "Accept-Language", py "zh-CN,zh;q=0.9,en;q=0.8")].

(** The pattern of [extract_url_re]: the text value= and, in double quotes,
    group 1 = https?://, one or more characters that are no double quote,
    ?mu= and the sub_pattern.  The f-string splices [sub_pattern] into the
    pattern; it is read as literal text, which it is for the one caller's
    'clash'. *)
Definition url_re (sub_pattern : str) : regex :=
  seq_of [Lit (py "value=" ++ [dq]);
          Group (seq_of [Lit (py "http"); Opt (Lit (py "s")); Lit (py "://");
                         Plus not_dq; Lit (py "?mu="); Lit sub_pattern]);
          Lit [dq]].

Definition extract_url_re (html_content sub_pattern : str) : option str :=
  match search (url_re sub_pattern) html_content with
  | Some m => group1 m
  | None => None
  end.

(** pattern1: https?://, one or more URL characters, then /link/ or
    /subscribe or /sub, then URL characters. *)
Definition pattern1 : regex :=
  seq_of [Lit (py "http"); Opt (Lit (py "s")); Lit (py "://"); Plus url_char;
          Alt (Lit (py "/link/")) (Alt (Lit (py "/subscribe")) (Lit (py "/sub")));
          Star url_char].

(** pattern2: href= and, in double quotes, group 1 = https?:// and one or
    more characters that are no double quote. *)
Definition pattern2 : regex :=
  seq_of [Lit (py "href=" ++ [dq]);
          Group (seq_of [Lit (py "http"); Opt (Lit (py "s")); Lit (py "://");
                         Plus not_dq]);
          Lit [dq]].

Section WithEnv.
Context `{Env}.

(** The loop over [re.finditer(pattern2, html_content)].  ([group(1)] of a
    match of pattern2 is always set; were it [None], [url.lower()] would
    raise.) *)
Fixpoint href_loop (ms : list rematch) : result (option str) :=
  match ms with
  | [] => Ret None
  | m :: ms' =>
      match group1 m with
      | Some url => if has_keyword url then Ret (Some url) else href_loop ms'
      | None => Raise OtherException
      end
  end.

(** The loop over [soup.find_all('a', href=True)]. *)
Fixpoint link_loop (base_url : str) (hrefs : list str) : result (option str) :=
  match hrefs with
  | [] => Ret None
  | href :: rest =>
      if has_keyword href then
        href' ← (if startswith (py "/") href then urljoin base_url href
                 else Ret href);
        if startswith (py "http") href' then Ret (Some href')
        else link_loop base_url rest
      else link_loop base_url rest
  end.

(** The three methods of [extract_subscription_url], as its comments number
    them (the specification counts [extract_url_re] first and calls them
    strategies 2, 3 and 4). *)
Definition method1 (html_content : str) : option str :=
  match search pattern1 html_content with
  | Some m => Some (group0 m)
  | None => None
  end.

Definition method2 (html_content : str) : result (option str) :=
  href_loop (finditer pattern2 html_content).

Definition method3 (html_content base_url : str) : M (option str) :=
  try_except
    (lift (sp ← BeautifulSoup html_content;
           link_loop base_url (find_all_a_href sp)))
    (λ e, logger WARNING "BeautifulSoup 解析失败: {e}" [VExn e];; mret None).

Definition extract_subscription_url (html_content base_url : str) : M (option str) :=
  match method1 html_content with
  | Some url => mret (Some url)
  | None =>
      r ← lift (method2 html_content);
      match r with
      | Some url => mret (Some url)
      | None => method3 html_content base_url
      end
  end.

Definition get_subscription_from_airport (airport_url user_agent cookie : str)
    : M (option str) :=
  try_except
    (logger INFO "正在访问机场: {airport_url}" [VStr airport_url];;
     let headers := headers user_agent in
     cookies ← lift (parse_cookie_string cookie);
     resp ← http (curl_cffi_get airport_url headers cookies);
     logger INFO "响应状态码: {resp.status_code}" [VNum (status_code resp)];;
     if (status_code resp =? 200)%N then
       logger INFO "✅ {airport_url} 登录成功！" [VStr airport_url];;
       let subscription_url := extract_url_re (text resp) (py "clash") in
       if truthy_opt subscription_url then
         logger INFO "找到订阅链接: {subscription_url}"
                [VStr (default [] subscription_url)];;
         mret subscription_url
       else
         logger WARNING "未找到订阅链接，尝试其他方式..." [];;
         subscription_url ← extract_subscription_url (text resp) airport_url;
         if truthy_opt subscription_url then
           logger INFO "找到订阅链接: {subscription_url}"
                  [VStr (default [] subscription_url)];;
           mret subscription_url
         else
           logger ERROR "未能找到任何订阅链接" [];;
           mret None
     else
       logger ERROR "❌ {airport_url} 登录失败，状态码：{resp.status_code}"
              [VStr airport_url; VNum (status_code resp)];;
       mret None)
    (λ e,
       logger ERROR "❌ {airport_url} 登录失败，错误信息：{e}" [VStr airport_url; VExn e];;
       logger ERROR "{traceback.format_exc()}" [VExn e];;
       mret None).

(** An airport of [config/airpots.json], as [process_airports] reads it: a
    JSON object whose fields, when present, are a boolean ([active]) and
    strings. *)
Record airport_config : Type := AirportConfig {
  active : option bool;
  name : option (list N);
  url : option (list N);
  user_agent : option (list N);
  cookie : option (list N)
}.

(** The default of [airport.get('name', ...)]: the four characters of the
    source's literal. *)
Definition unknown_airport : str := [0x672A; 0x77E5; 0x673A; 0x573A]%N.

(** The loop of [process_airports] over the airports it has loaded. *)
Fixpoint process_airports_loop (airports : list airport_config) : M unit :=
  match airports with
  | [] => mret ()
  | airport :: rest =>
      if negb (default true (active airport)) then
        logger INFO "跳过未激活的机场: {airport.get('name', '未知机场')}"
               [VStr (default unknown_airport (name airport))];;
        process_airports_loop rest
      else
        let airport_name := default unknown_airport (name airport) in
        let airport_url := url airport in
        let user_agent := default [] (user_agent airport) in
        let cookie := default [] (cookie airport) in
        if negb (truthy_opt airport_url) || negb (truthy cookie) then
          logger ERROR "机场 {airport_name} 配置缺少 URL 或 Cookie" [VStr airport_name];;
          process_airports_loop rest
        else
          logger INFO "处理机场: {airport_name}" [VStr airport_name];;
          try_except
            (subscription_link ←
               get_subscription_from_airport (default [] airport_url) user_agent cookie;
             if truthy_opt subscription_link then
               logger INFO "✅ {airport_name} 成功获取订阅链接" [VStr airport_name]
             else
               logger ERROR "❌ {airport_name} 未找到订阅链接" [VStr airport_name])
            (λ e,
               logger ERROR "❌ {airport_name} 获取订阅链接失败: {e}"
                      [VStr airport_name; VExn e]);;
          logger INFO "==================================================" [];;
          process_airports_loop rest
  end.

End WithEnv.

End GetSuburl.

(** * subcon.py *)

Module Subcon.

(** The patterns of [get_subscription_from_airport]. *)
Definition patterns : list regex :=
  [seq_of [Lit (py "http"); Opt (Lit (py "s")); Lit (py "://"); Plus url_char2;
           Lit (py "/link/"); Plus url_char3];
   seq_of [Lit (py "http"); Opt (Lit (py "s")); Lit (py "://"); Plus url_char2;
           Lit (py "subscribe"); Star url_char2];
   seq_of [Lit (py "http"); Opt (Lit (py "s")); Lit (py "://"); Plus url_char2;
           Lit (py "sub"); Star url_char2]].

(** [for pattern in patterns: match = re.search(pattern, s); if match: ... break] *)
Fixpoint first_search (ps : list regex) (s : str) : option rematch :=
  match ps with
  | [] => None
  | p :: ps' =>
      match search p s with
      | Some m => Some m
      | None => first_search ps' s
      end
  end.

(** The [headers] dict of [get_subscription_from_airport]. *)
Definition headers (cookie : str) : list (str * str) :=
  [(py "User-Agent",
    py "Mozilla/5.0 (Macintosh; Intel Mac OS X 10_15_7) AppleWebKit/537.36");
   (py "Cookie", cookie);
   (py "Accept",
    py "text/html,application/xhtml+xml,application/xml;q=0.9,*/*;q=0.8")].

(** An airport of the configuration: a JSON object with string fields.  An
    element of the list that is no object (on which [airport.get] raises
    AttributeError) is not modelled. *)
Abbreviation airport := (gmap string (list N)) (only parsing).

(** [not x] for a value that is a string or [None]. *)
Definition falsy (o : option (list N)) : bool := negb (truthy_opt o).

Section WithEnv.
Context `{Env}.

(** The loop over the anchors: the first href in which one of the patterns
    is found. *)
Fixpoint link_loop (hrefs : list str) : M (option str) :=
  match hrefs with
  | [] => mret None
  | href :: rest =>
      match first_search patterns href with
      | Some _ =>
          logger INFO "找到订阅链接: {subscription_url}" [VStr href];;
          mret (Some href)
      | None => link_loop rest
      end
  end.

Definition get_subscription_from_airport (airport_url cookie : str) : M (option str) :=
  try_except
    (logger INFO "正在访问机场: {airport_url}" [VStr airport_url];;
     let headers := headers cookie in
     response ← http (requests_get airport_url headers);
     raise_for_status response;;
     sp ← lift (BeautifulSoup (text response));
     print (prettify sp);;
     (raise DebuggingStop : M unit);;
     subscription_url ← link_loop (find_all_a_href sp);
     subscription_url ←
       (if negb (truthy_opt subscription_url) then
          match first_search patterns (text response) with
          | Some m =>
              logger INFO "从页面文本中找到订阅链接: {subscription_url}"
                     [VStr (group0 m)];;
              mret (Some (group0 m))
          | None => mret subscription_url
          end
        else mret subscription_url);
     if negb (truthy_opt subscription_url) then
       logger ERROR "未能在页面中找到订阅链接" [];;
       mret None
     else mret subscription_url)
    (λ e,
       if is_RequestException e then
         logger ERROR "访问机场失败: {e}" [VExn e];; mret None
       else
         logger ERROR "解析页面失败: {e}" [VExn e];; mret None).

Definition get_subscription_content (sub_url : str) : M (option str) :=
  try_except
    (logger INFO "获取订阅内容: {sub_url}" [VStr sub_url];;
     response ← http (requests_get sub_url []);
     raise_for_status response;;
     try_except
       (content ← lift (bs ← b64decode (text response); utf8_decode bs);
        logger INFO "成功解码订阅，节点数: {len(content.splitlines())}"
               [VNum (N.of_nat (length (splitlines content)))];;
        mret (Some content))
       (λ _,
          logger INFO "订阅未编码，直接使用原始内容，节点数: {len(response.text.splitlines())}"
                 [VNum (N.of_nat (length (splitlines (text response))))];;
          mret (Some (text response))))
    (λ e,
       if is_RequestException e then
         logger ERROR "获取订阅内容失败: {e}" [VExn e];; mret None
       else raise e).

(** The loop over [local_node_list]. *)
Fixpoint local_loop (local_node_list : list str) (all_nodes : list str) : list str :=
  match local_node_list with
  | [] => all_nodes
  | node :: rest =>
      let node := strip node in
      local_loop rest (if truthy node then all_nodes ++ [node] else all_nodes)
  end.

(** [[line.strip() for line in content.splitlines() if line.strip()]] *)
Fixpoint node_lines (lines : list str) : list str :=
  match lines with
  | [] => []
  | line :: rest =>
      if truthy (strip line) then strip line :: node_lines rest
      else node_lines rest
  end.

(** The loop over [airports]; [all_nodes] is the list it appends to. *)
Fixpoint airport_loop (airports : list airport) (all_nodes : list str)
    : M (list str) :=
  match airports with
  | [] => mret all_nodes
  | airport :: rest =>
      let name := default (py "Unknown") (airport !! "name"%string) in
      let url := airport !! "url"%string in
      let cookie := airport !! "cookie"%string in
      if falsy url || falsy cookie then
        logger WARNING "机场 {name} 配置不完整，跳过" [VStr name];;
        airport_loop rest all_nodes
      else
        logger INFO "\n处理机场: {name}" [VStr name];;
        logger INFO "==================================================" [];;
        sub_url ← get_subscription_from_airport (default [] url) (default [] cookie);
        if negb (truthy_opt sub_url) then
          logger WARNING "机场 {name} 获取订阅链接失败，跳过" [VStr name];;
          airport_loop rest all_nodes
        else
          content ← get_subscription_content (default [] sub_url);
          if truthy_opt content then
            let node_lines := node_lines (splitlines (default [] content)) in
            logger INFO "机场 {name} 添加了 {len(node_lines)} 个节点"
                   [VStr name; VNum (N.of_nat (length node_lines))];;
            airport_loop rest (all_nodes ++ node_lines)
          else
            logger WARNING "机场 {name} 获取订阅内容失败" [VStr name];;
            airport_loop rest all_nodes
  end.

Definition merge_all_nodes (airports : list airport) (local_nodes : str) : M str :=
  all_nodes ←
    (if truthy local_nodes then
       logger INFO "\n添加本地节点..." [];;
       let local_node_list := split (ch "|") local_nodes in
       let all_nodes := local_loop local_node_list [] in
       logger INFO "添加了 {len(local_node_list)} 个本地节点"
              [VNum (N.of_nat (length local_node_list))];;
       mret all_nodes
     else mret []);
  all_nodes ← airport_loop airports all_nodes;
  mret (join [10%N] all_nodes).

(** The query parameters, in the order of the dict literal. *)
Definition params (output_format encoded_content : str) : list (str * str) :=
  [(py "target", output_format);
   (py "url", encoded_content);
   (py "insert", py "false");
   (py "config",
    py "https://raw.githubusercontent.com/ACL4SSR/ACL4SSR/master/Clash/config/ACL4SSR_Online.ini");
   (py "emoji", py "true");
   (py "list", py "false");
   (py "udp", py "true");
   (py "tfo", py "false");
   (py "scv", py "false");
   (py "fdn", py "false");
   (py "sort", py "false")].

Definition generate_subconvert_url (subscription_content output_format : str)
    : result str :=
  bs ← utf8_encode subscription_content;
  encoded_content ← utf8_decode (b64encode bs);
  query_string ← urlencode (params output_format encoded_content);
  Ret (SUBCONVERT_URL ++ py "?" ++ query_string).

(** The [formats] dict of [main], in its order. *)
Definition formats : list (str * str) :=
  [(py "clash", py "Clash"); (py "v2ray", py "V2Ray");
   (py "surge", py "Surge"); (py "surfboard", py "Surfboard")].

(** The loop of [main] over [formats.items()]. *)
Fixpoint format_loop (fs : list (str * str)) (merged_content : str) : M unit :=
  match fs with
  | [] => mret ()
  | (fmt, name) :: rest =>
      url ← lift (generate_subconvert_url merged_content fmt);
      logger INFO "{name}: {url}" [VStr name; VStr url];;
      logger INFO "--------------------------------------------------" [];;
      format_loop rest merged_content
  end.

(** [main], from the airports [parse_airports_config()] returned (objects
    with string fields, as [merge_all_nodes] takes them) and the value of
    LOCAL_NODES read from the environment. *)
Definition main (airports : list airport) (LOCAL_NODES : str) : M unit :=
  logger INFO "==================================================" [];;
  logger INFO "开始获取机场订阅..." [];;
  logger INFO "==================================================" [];;
  if negb (match airports with [] => false | _ => true end) && negb (truthy LOCAL_NODES)
  then
    logger ERROR "没有配置任何机场或本地节点" [];;
    logger INFO "\n请在 .env 文件中配置 AIRPORTS 或 LOCAL_NODES" [];;
    mret ()
  else
    logger INFO "\n共配置了 {len(airports)} 个机场" [VNum (N.of_nat (length airports))];;
    let local_nodes := strip LOCAL_NODES in
    merged_content ← merge_all_nodes airports local_nodes;
    if negb (truthy merged_content) then
      logger ERROR "没有获取到任何节点" [];;
      mret ()
    else
      let total_nodes := length (splitlines merged_content) in
      logger INFO "\n==================================================" [];;
      logger INFO "合并完成！总共 {total_nodes} 个节点" [VNum (N.of_nat total_nodes)];;
      logger INFO "==================================================" [];;
      logger INFO "\n生成 SubConvert 转换链接..." [];;
      logger INFO "\n==================================================" [];;
      format_loop formats merged_content;;
      logger INFO "==================================================" [];;
      mret ().

End WithEnv.

End Subcon.

(** * Definitions that follow the specification's words

    Each is compared below with the function of the source it describes. *)

(** The text before the first [sep] (all of it when there is none). *)
Fixpoint before_first (sep : N) (s : str) : str :=
  match s with
  | [] => []
  | c :: s' => if (c =? sep)%N then [] else c :: before_first sep s'
  end.

(** The text after the first [sep] (nothing when there is none). *)
Fixpoint after_first (sep : N) (s : str) : str :=
  match s with
  | [] => []
  | c :: s' => if (c =? sep)%N then s' else after_first sep s'
  end.

(** The dictionary of a cookie string: the items between semicolons that hold
    an equals sign, each mapping the stripped text before its first equals
    sign to the stripped text between its first and its second. *)
Definition cookie_key (item : str) : str := strip (before_first (ch "=") item).
Definition cookie_value (item : str) : str :=
  strip (before_first (ch "=") (after_first (ch "=") item)).

Definition cookie_spec (cookie_str : str) : gmap (list N) (list N) :=
  foldl (λ d item, <[cookie_key item := cookie_value item]> d) ∅
        (filter (λ item, ch "=" ∈ item) (split (ch ";") cookie_str)).

(** The entries of a local-nodes string: split on the pipe, stripped, the
    empty ones dropped. *)
Definition local_entries (local_nodes : str) : list str :=
  filter (λ e, e ≠ []) (strip <$> split (ch "|") local_nodes).

(** Every double-quoted href attribute of a page, in document order: the
    pattern href= and, in double quotes, group 1 = any characters that are no
    double quote. *)
Definition href_re : regex :=
  seq_of [Lit (py "href=" ++ [dq]); Group (Star not_dq); Lit [dq]].

Definition page_hrefs (html : str) : list str :=
  omap group1 (finditer href_re html).

(** The texts a pattern matches (groups apart). *)
Fixpoint lang (r : regex) (a : str) : Prop :=
  match r with
  | Lit l => a = l
  | Cls p => ∃ c, a = [c] ∧ p c = true
  | Star p => forallb p a = true
  | Plus p => a ≠ [] ∧ forallb p a = true
  | Opt r1 => a = [] ∨ lang r1 a
  | Alt r1 r2 => lang r1 a ∨ lang r2 a
  | Seq r1 r2 => ∃ a1 a2, a = a1 ++ a2 ∧ lang r1 a1 ∧ lang r2 a2
  | Group r1 => lang r1 a
  end.

(** An http(s) URL that ends in ?mu= and the target format: the scheme, ://,
    a non-empty rest without a double quote, then ?mu= and the format. *)
Definition mu_url (sub_pattern u : str) : Prop :=
  ∃ scheme body,
    (scheme = py "http" ∨ scheme = py "https")
    ∧ body ≠ [] ∧ (dq ∉ body)
    ∧ u = scheme ++ py "://" ++ body ++ py "?mu=" ++ sub_pattern.

(** The attribute value= with [u] in double quotes. *)
Definition value_attr (u : str) : str := py "value=" ++ [dq] ++ u ++ [dq].

(** The attribute with [u] that follows [pre] is the first of its form on
    the page: no such attribute starts earlier. *)
Definition first_value_attr (sub_pattern pre u post : str) : Prop :=
  ∀ pre' u' post',
    mu_url sub_pattern u' →
    pre ++ value_attr u ++ post = pre' ++ value_attr u' ++ post' →
    length pre ≤ length pre'.

(** An absolute http(s) URL inside double quotes: the scheme, ://, and a
    non-empty rest without a double quote. *)
Definition abs_url (u : str) : Prop :=
  ∃ scheme body,
    (scheme = py "http" ∨ scheme = py "https")
    ∧ body ≠ [] ∧ (dq ∉ body)
    ∧ u = scheme ++ py "://" ++ body.

(** The attribute href= with [u] in double quotes. *)
Definition href_attr (u : str) : str := py "href=" ++ [dq] ++ u ++ [dq].

(** The double-quoted absolute hrefs of the raw page text, in document order:
    group 1 of the matches of pattern2. *)
Definition abs_hrefs (html : str) : list str :=
  omap group1 (finditer GetSuburl.pattern2 html).

Section SpecWithEnv.
Context `{Env}.

(** What an anchor's href resolves to, if it holds a keyword: a path with a
    leading slash is joined to the base URL; the result counts when it starts
    with http. *)
Definition resolves_to (base_url href : str) : result (option str) :=
  if has_keyword href then
    target ← (if startswith (py "/") href then urljoin base_url href else Ret href);
    Ret (if startswith (py "http") target then Some target else None)
  else Ret None.

End SpecWithEnv.

(** A byte. *)
Definition is_byte (b : N) : bool := (b <? 256)%N.

(** A Unicode scalar value: a code point that is no surrogate.  Text made of
    scalar values is what UTF-8 can encode. *)
Definition is_scalar (c : N) : bool :=
  (c <? 0xD800)%N || ((0xDFFF <? c) && (c <? 0x110000))%N.

(** Base64 in the strict sense of RFC 4648: groups of four characters of the
    alphabet, the last group closed by one or two pad characters when the
    bytes do not fill it, and nothing else.  [None] when the text is not of
    that form. *)
Fixpoint b64decode_strict (s : str) : option bytes :=
  match s with
  | [] => Some []
  | c0 :: c1 :: c2 :: c3 :: rest =>
      match b64_value c0, b64_value c1 with
      | Some v0, Some v1 =>
          if ((c2 =? ch "=") && (c3 =? ch "="))%N then
            match rest with
            | [] => Some [v0 * 4 + v1 / 16]%N
            | _ => None
            end
          else
            match b64_value c2 with
            | Some v2 =>
                if (c3 =? ch "=")%N then
                  match rest with
                  | [] => Some [v0 * 4 + v1 / 16; (v1 mod 16) * 16 + v2 / 4]%N
                  | _ => None
                  end
                else
                  match b64_value c3 with
                  | Some v3 =>
                      bs ← b64decode_strict rest;
                      Some ([v0 * 4 + v1 / 16; (v1 mod 16) * 16 + v2 / 4;
                             (v2 mod 4) * 64 + v3]%N ++ bs)
                  | None => None
                  end
            | None => None
            end
      | _, _ => None
      end
  | _ => None
  end.

Definition valid_base64 (s : str) : bool :=
  match b64decode_strict s with Some _ => true | None => false end.

(** A property of the numbers below [n], checked by running it on each. *)
Definition check_below (n : nat) (f : N → bool) : bool :=
  forallb f (N.of_nat <$> seq 0 n).

(** Text without whitespace at its start. *)
Definition no_leading_space (s : str) : bool :=
  match s with
  | [] => true
  | c :: _ => negb (isspace c)
  end.

(** Text without whitespace at either end. *)
Definition stripped (s : str) : bool :=
  no_leading_space s && no_leading_space (reverse s).

(** The items of a cookie string that [parse_cookie_string] keeps: the pieces
    between semicolons that hold an equals sign. *)
Definition cookie_items (cookie_str : str) : list str :=
  filter (λ item, ch "=" ∈ item) (split (ch ";") cookie_str).

(** An entry as [merge_all_nodes] keeps it: not empty, no whitespace at
    either end, no pipe. *)
Definition clean_entry (e : str) : Prop :=
  e ≠ [] ∧ stripped e = true ∧ (ch "|" ∉ e).

Section MoreSpecWithEnv.
Context `{Env}.

(** The world after the dashboard requests of [merge_all_nodes]: one request
    for each airport that has a URL and a cookie, in the order of the list. *)
Definition dashboard_fetches (airports : list (gmap string (list N))) (w : world)
    : world :=
  foldl (λ w airport,
           if Subcon.falsy (airport !! "url"%string)
              || Subcon.falsy (airport !! "cookie"%string)
           then w
           else (requests_get (default [] (airport !! "url"%string))
                              (Subcon.headers (default [] (airport !! "cookie"%string)))
                              w).2)
        w airports.

End MoreSpecWithEnv.

(** Text without a line boundary. *)
Definition one_line (l : str) : bool := forallb (λ c, negb (is_linebreak c)) l.

(** A link URL in the sense of pattern1: the scheme, ://, one or more URL
    characters, one of the three path keywords, and URL characters. *)
Definition link_url (u : str) : Prop :=
  ∃ scheme host keyword tail,
    (scheme = py "http" ∨ scheme = py "https")
    ∧ host ≠ [] ∧ forallb url_char host = true
    ∧ (keyword = py "/link/" ∨ keyword = py "/subscribe" ∨ keyword = py "/sub")
    ∧ forallb url_char tail = true
    ∧ u = scheme ++ py "://" ++ host ++ keyword ++ tail.

Section MoreSpecWithEnv2.
Context `{Env}.

(** The world after the requests of the loop of [process_airports]: one
    request for each airport that is active (or says nothing about it) and
    has a URL and a cookie, in the order of the list. *)
Definition airport_requests (airports : list GetSuburl.airport_config) (w : world)
    : world :=
  foldl (λ w airport,
           if default true (GetSuburl.active airport)
              && truthy_opt (GetSuburl.url airport)
              && truthy (default [] (GetSuburl.cookie airport))
           then (curl_cffi_get (default [] (GetSuburl.url airport))
                   (GetSuburl.headers (default [] (GetSuburl.user_agent airport)))
                   (cookie_spec (default [] (GetSuburl.cookie airport)))
                   w).2
           else w)
        w airports.

End MoreSpecWithEnv2.

(** The characters [quote_plus] writes: the unreserved ones, the plus sign
    for a space and the percent sign of an escape. *)
Definition quoted_char (c : N) : bool :=
  always_safe c || (c =? ch "+")%N || (c =? ch "%")%N.

(** The characters of a query string: quoted text, the ampersand between the
    parameters and the equals sign between a key and its value. *)
Definition query_char (c : N) : bool :=
  quoted_char c || (c =? ch "&")%N || (c =? ch "=")%N.

(** The converter links in a log: the name and the URL of every record
    written by the loop of [main] over the formats. *)
Definition converter_urls (l : list event) : list (str * str) :=
  omap (λ ev, match ev with
              | Log INFO template [VStr name; VStr url] =>
                  if String.eqb template "{name}: {url}" then Some (name, url)
                  else None
              | _ => None
              end) l.

(** The parameters of the converter link as they stand in the query string:
    the quoted keys and values of [params], in its order. *)
Definition query_pairs (target url_value : str) : list (str * str) :=
  [(py "target", target);
   (py "url", url_value);
   (py "insert", py "false");
   (py "config",
    py "https%3A%2F%2Fraw.githubusercontent.com%2FACL4SSR%2FACL4SSR%2Fmaster%2FClash%2Fconfig%2FACL4SSR_Online.ini");
   (py "emoji", py "true");
   (py "list", py "false");
   (py "udp", py "true");
   (py "tfo", py "false");
   (py "scv", py "false");
   (py "fdn", py "false");
   (py "sort", py "false")].

(** [key=value] for each pair, joined by ampersands. *)
Definition query_of (pairs : list (str * str)) : str :=
  join (py "&") ((λ kv, kv.1 ++ py "=" ++ kv.2) <$> pairs).

(** A query string read back: split on the ampersand, each item split on
    the equals sign. *)
Definition parse_query (q : str) : list (list str) :=
  split (ch "=") <$> split (ch "&") q.

(** Text that a regular expression reads as itself: ASCII letters, digits
    and the underscore.  Spliced into a pattern, such a sub_pattern is the
    literal [Lit sub_pattern] of [url_re]. *)
Definition word_char (c : N) : bool :=
  ((65 <=? c) && (c <=? 90))%N || ((97 <=? c) && (c <=? 122))%N
  || ((48 <=? c) && (c <=? 57))%N || (c =? ch "_")%N.

Definition plain_pattern (sub_pattern : str) : bool := forallb word_char sub_pattern.

(** * A small world for the examples

    Two airports and three subscriptions; the page parser is a toy that takes
    every double-quoted href for an anchor, and [urljoin] puts a path after
    the scheme and host of the base. *)

Module Demo.

Definition url_a : str := py "https://a.example/user".
Definition url_b : str := py "https://b.example/user".
Definition sub_b : str := py "https://b.example/link/tok".

Definition page_b : str :=
  py "<html><a href=" ++ [dq] ++ sub_b ++ [dq] ++ py ">copy</a></html>".

Definition content_b : str := py "n1" ++ [10%N] ++ py "n2".

(** Two more subscriptions: one whose body is four exclamation marks, one
    whose body is the base64 text of the lines node1 and node2. *)
Definition sub_c : str := py "https://c.example/sub".
Definition sub_d : str := py "https://d.example/sub".

(** Airport a is unreachable; airport b serves its dashboard and its
    subscription. *)
Definition get (url : str) : result response :=
  if decide (url = url_b) then Ret (Response 200 page_b)
  else if decide (url = sub_b) then Ret (Response 200 content_b)
  else if decide (url = sub_c) then Ret (Response 200 (py "!!!!"))
  else if decide (url = sub_d) then Ret (Response 200 (py "bm9kZTEKbm9kZTI="))
  else Raise RequestException.

Fixpoint origin_from (slashes : nat) (s : str) : str :=
  match s with
  | [] => []
  | c :: s' =>
      if (c =? ch "/")%N then
        match slashes with
        | O => []
        | S n => c :: origin_from n s'
        end
      else c :: origin_from slashes s'
  end.

Definition env : Env := {|
  world := unit;
  soup := list N;
  unicode_lower := id;
  requests_get := λ url _ w, (get url, w);
  curl_cffi_get := λ url _ _ w, (get url, w);
  BeautifulSoup := λ html, Ret html;
  find_all_a_href := page_hrefs;
  prettify := id;
  urljoin := λ base href, Ret (origin_from 2 base ++ href);
  SUBCONVERT_URL := py "http://65.49.200.39:25500/sub"
|}.

Definition st0 : @state env := @State env () [].

Definition airports : list (gmap string (list N)) :=
  [ {[ "name"%string := py "a"; "url"%string := url_a; "cookie"%string := py "sid=1" ]};
    {[ "name"%string := py "b"; "url"%string := url_b; "cookie"%string := py "sid=2" ]} ].

End Demo.

(** * Tactics *)

(** Division and remainder by constants are arithmetic for [lia]. *)
Ltac Zify.zify_post_hook ::= Z.to_euclidean_division_equations.

(** The monad's operations unfolded; what is left is a term on the state. *)
Ltac run :=
  unfold raise_for_status;
  unfold mbind, M_bind, try_except, logger, print, http, lift, raise, mret, M_ret.

(** A literal without a double quote. *)
Ltac no_dq :=
  let Hdq := fresh "Hdq" in
  vm_compute; intros Hdq;
  repeat (apply elem_of_cons in Hdq as [Hdq|Hdq]; [discriminate Hdq|]);
  by apply elem_of_nil in Hdq.

(** The literals of a hypothesis computed to their code points. *)
Ltac py_eval_in H :=
  repeat match type of H with
         | context [py ?s] =>
             let v := eval vm_compute in (py s) in change (py s) with v in H
         end;
  unfold dq in H; cbn [app] in H.

(** The character constants of a hypothesis or of the goal as numbers. *)
Ltac ch_eval :=
  repeat match goal with
         | |- context [ch ?a] =>
             let v := eval vm_compute in (ch a) in change (ch a) with v
         | H : context [ch ?a] |- _ =>
             let v := eval vm_compute in (ch a) in change (ch a) with v in H
         end.

(** Comparisons on numbers, as propositions for [lia]. *)
Ltac bool_lia := unfold cont, is_byte, is_ascii, is_scalar in *; lia.

(** The test of the first conditional of the goal decided by arithmetic. *)
Ltac decide_if :=
  match goal with
  | |- (if ?b then _ else _) = _ =>
      first [ replace b with true by (symmetry; bool_lia)
            | replace b with false by (symmetry; bool_lia) ]
  end.

(** Comparisons among the hypotheses as propositions. *)
Ltac hyps_to_props :=
  repeat match goal with
         | H : (_ <? _)%N = true |- _ => apply N.ltb_lt in H
         | H : (_ <? _)%N = false |- _ => apply N.ltb_ge in H
         | H : (_ <=? _)%N = true |- _ => apply N.leb_le in H
         | H : (_ <=? _)%N = false |- _ => apply N.leb_gt in H
         | H : (_ && _) = true |- _ => apply andb_true_iff in H as [? ?]
         | H : (_ && _) = false |- _ => apply andb_false_iff in H
         end.

(** The quoted literals of the parameter dict computed. *)
Ltac quote_lits :=
  repeat match goal with
         | |- context [quote_plus (py ?s)] =>
             let v := eval vm_compute in (quote_plus (py s)) in
             change (quote_plus (py s)) with v
         end.

(** * Part II: lemmas and theorems *)

(** ** Text primitives *)

Lemma startswith_app (p t : str) : startswith p (p ++ t) = true.
Proof.
  induction p as [|a p IH]; simpl; [done|].
  by rewrite N.eqb_refl, IH.
Qed.

Lemma startswith_inv (p s : str) :
  startswith p s = true → ∃ t, s = p ++ t.
Proof.
  revert s; induction p as [|a p IH]; intros s Hs; simpl in *.
  - by exists s.
  - destruct s as [|b s]; [done|].
    apply andb_true_iff in Hs as [Hab Hs].
    apply N.eqb_eq in Hab as ->.
    destruct (IH _ Hs) as [t ->]. by exists t.
Qed.

Lemma startswith_false (p s : str) :
  startswith p s = false → ∀ t, s ≠ p ++ t.
Proof.
  intros Hs t ->. by rewrite startswith_app in Hs.
Qed.

Lemma has_char_elem_of (c : N) (s : str) : has_char c s = true ↔ c ∈ s.
Proof.
  unfold has_char. rewrite existsb_exists. split.
  - intros (x & Hx & Hc). apply N.eqb_eq in Hc as ->. by apply list_elem_of_In.
  - intros Hc. exists c. split; [by apply list_elem_of_In | apply N.eqb_refl].
Qed.

Lemma has_char_false (c : N) (s : str) : has_char c s = false ↔ c ∉ s.
Proof.
  rewrite <- has_char_elem_of. destruct (has_char c s); naive_solver.
Qed.

Lemma split_cons (sep : N) (s : str) :
  split sep s =
    before_first sep s ::
      (if has_char sep s then split sep (after_first sep s) else []).
Proof.
  induction s as [|c s IH]; simpl; [done|].
  rewrite (N.eqb_sym sep c).
  destruct (c =? sep)%N; simpl; [done|].
  by rewrite IH.
Qed.

(** ** parse_cookie_string *)

Lemma cookie_dict_spec (items : list str) (d : gmap (list N) (list N)) :
  GetSuburl.cookie_dict items d =
    Ret (foldl (λ d item, <[cookie_key item := cookie_value item]> d) d
               (filter (λ item, ch "=" ∈ item) items)).
Proof.
  revert d; induction items as [|item rest IH]; intros d;
    cbn [GetSuburl.cookie_dict]; [done|].
  destruct (has_char (ch "=") item) eqn:Hc.
  - apply has_char_elem_of in Hc as Hin.
    rewrite filter_cons_True by done.
    rewrite (split_cons _ item), Hc.
    rewrite (split_cons _ (after_first _ item)).
    cbn [index lookup list_lookup mbind result_bind foldl].
    apply IH.
  - apply has_char_false in Hc as Hin.
    rewrite filter_cons_False by done. apply IH.
Qed.

Lemma parse_cookie_string_eq (cookie_str : str) :
  GetSuburl.parse_cookie_string cookie_str = Ret (cookie_spec cookie_str).
Proof.
  destruct cookie_str as [|c s]; [done|].
  unfold GetSuburl.parse_cookie_string, cookie_spec. simpl negb. cbv iota.
  apply cookie_dict_spec.
Qed.

(** C10: [parse_cookie_string] never raises and returns the dictionary the
    claim describes: the empty dictionary for the empty string, and otherwise,
    for each item between semicolons that holds an equals sign, the stripped
    text before the first equals sign mapped to the stripped text between the
    first and the second (a later item with the same key wins); so a=b=c maps
    a to b. *)
Theorem parse_cookie_string_spec :
  (∀ cookie_str : str,
     GetSuburl.parse_cookie_string cookie_str = Ret (cookie_spec cookie_str))
  ∧ cookie_spec [] = ∅
  ∧ GetSuburl.parse_cookie_string (py "a=b=c") = Ret {[ py "a" := py "b" ]}
  ∧ GetSuburl.parse_cookie_string (py "sid=1; theme ; lang = en") =
      Ret {[ py "sid" := py "1"; py "lang" := py "en" ]}.
Proof.
  split_and!.
  - apply parse_cookie_string_eq.
  - done.
  - vm_compute. done.
  - vm_compute. done.
Qed.

(** ** The local nodes of merge_all_nodes *)

Lemma truthy_true (s : str) : truthy s = true ↔ s ≠ [].
Proof. by destruct s. Qed.

Lemma truthy_false (s : str) : truthy s = false ↔ s = [].
Proof. by destruct s. Qed.

Section LocalNodes.
Context `{Env}.

Lemma local_loop_spec (l acc : list str) :
  Subcon.local_loop l acc = acc ++ filter (λ e, e ≠ []) (strip <$> l).
Proof.
  revert acc; induction l as [|node rest IH]; intros acc; simpl.
  - by rewrite app_nil_r.
  - rewrite IH. destruct (truthy (strip node)) eqn:Ht.
    + apply truthy_true in Ht. rewrite filter_cons_True by done.
      by rewrite <- app_assoc.
    + apply truthy_false in Ht. by rewrite filter_cons_False by naive_solver.
Qed.

Lemma local_entries_empty : local_entries [] = [].
Proof. done. Qed.

(** The value [merge_all_nodes] returns when no airport is configured. *)
Lemma merge_all_nodes_no_airports (local_nodes : str) (st : state) :
  (Subcon.merge_all_nodes [] local_nodes st).1 =
    Ret (join [10%N] (local_entries local_nodes)).
Proof.
  unfold Subcon.merge_all_nodes.
  destruct local_nodes as [|c s]; [done|].
  cbn [truthy]. unfold mbind, M_bind, logger, mret, M_ret. simpl.
  by rewrite local_loop_spec.
Qed.

(** C7: the loop over the local nodes splits the string on the pipe, strips
    every entry and keeps exactly the non-empty ones, in order; these entries,
    joined by newlines, are what [merge_all_nodes] returns when there is no
    airport; and "a | b |c" gives the entries a, b, c. *)
Theorem local_nodes_entries :
  (∀ local_nodes : str,
     Subcon.local_loop (split (ch "|") local_nodes) [] = local_entries local_nodes)
  ∧ (∀ (local_nodes : str) (st : state),
       (Subcon.merge_all_nodes [] local_nodes st).1 =
         Ret (join [10%N] (local_entries local_nodes)))
  ∧ Subcon.local_loop (split (ch "|") (py "a | b |c")) [] = [py "a"; py "b"; py "c"].
Proof.
  split_and!.
  - intros s. by rewrite local_loop_spec.
  - apply merge_all_nodes_no_airports.
  - done.
Qed.

End LocalNodes.

(** ** The debugging stop of subcon.py *)

Section DebuggingStop.
Context `{Env}.

(** The function with the monad unfolded: nothing of the code under the
    raise is left. *)
Lemma stopped_normal_form (airport_url cookie : str) (st : state) :
     Subcon.get_subscription_from_airport airport_url cookie st =
       let visiting := Log INFO "正在访问机场: {airport_url}" [VStr airport_url] in
       let failed (e : exn) :=
         Log ERROR (if is_RequestException e then "访问机场失败: {e}"
                    else "解析页面失败: {e}") [VExn e] in
       match requests_get airport_url (Subcon.headers cookie) (net st) with
       | (Raise e, w) => (Ret None, State w (log st ++ [visiting; failed e]))
       | (Ret response, w) =>
           if ((400 <=? status_code response) && (status_code response <? 600))%N
           then (Ret None,
                 State w (log st ++ [visiting; failed (HTTPError (status_code response))]))
           else
             match BeautifulSoup (text response) with
             | Raise e => (Ret None, State w (log st ++ [visiting; failed e]))
             | Ret sp =>
                 (Ret None,
                  State w (log st ++ [visiting; Print (prettify sp);
                                      failed DebuggingStop]))
             end
       end.
Proof.
  unfold Subcon.get_subscription_from_airport. run. cbn [net log].
  destruct (requests_get _ _ _) as [[response|e] w]; cbn [net log].
  - destruct ((400 <=? status_code response) && _)%N; cbn [net log is_RequestException].
    + by rewrite <- app_assoc.
    + destruct (BeautifulSoup _) as [sp|e]; cbn [net log is_RequestException].
      * by rewrite <- !app_assoc.
      * destruct (is_RequestException e); cbn [net log]; by rewrite <- app_assoc.
  - destruct (is_RequestException e); cbn [net log]; by rewrite <- app_assoc.
Qed.

Lemma stopped_returns_none (airport_url cookie : str) (st : state) :
  (Subcon.get_subscription_from_airport airport_url cookie st).1 = Ret None.
Proof.
  rewrite stopped_normal_form. cbv zeta.
  destruct (requests_get _ _ _) as [[response|e] w]; [|done].
  destruct ((400 <=? status_code response) && _)%N; [done|].
  by destruct (BeautifulSoup _).
Qed.

(** C8: [get_subscription_from_airport] of subcon.py, for every airport and
    every world: when the dashboard fetch and the parse succeed it prints the
    page, raises the debugging stop and returns [None] from the handler; the
    code under the raise never runs (the only records written are the ones
    before it and the handler's), and on every other path it returns [None]
    too. *)
Theorem debugging_stop_always_none :
  (∀ (airport_url cookie : str) (st : state),
     Subcon.get_subscription_from_airport airport_url cookie st =
       let visiting := Log INFO "正在访问机场: {airport_url}" [VStr airport_url] in
       let failed (e : exn) :=
         Log ERROR (if is_RequestException e then "访问机场失败: {e}"
                    else "解析页面失败: {e}") [VExn e] in
       match requests_get airport_url (Subcon.headers cookie) (net st) with
       | (Raise e, w) => (Ret None, State w (log st ++ [visiting; failed e]))
       | (Ret response, w) =>
           if ((400 <=? status_code response) && (status_code response <? 600))%N
           then (Ret None,
                 State w (log st ++ [visiting; failed (HTTPError (status_code response))]))
           else
             match BeautifulSoup (text response) with
             | Raise e => (Ret None, State w (log st ++ [visiting; failed e]))
             | Ret sp =>
                 (Ret None,
                  State w (log st ++ [visiting; Print (prettify sp);
                                      failed DebuggingStop]))
             end
       end)
  ∧ (∀ (airport_url cookie : str) (st : state),
       (Subcon.get_subscription_from_airport airport_url cookie st).1 = Ret None).
Proof.
  split; [apply stopped_normal_form | apply stopped_returns_none].
Qed.

End DebuggingStop.

(** ** merge_all_nodes behind the debugging stop *)

Section Merge.
Context `{Env}.

Lemma airport_loop_unchanged (airports : list (gmap string (list N)))
    (all_nodes : list str) (st : state) :
  (Subcon.airport_loop airports all_nodes st).1 = Ret all_nodes.
Proof.
  revert st; induction airports as [|airport rest IH]; intros st; [done|].
  cbn [Subcon.airport_loop].
  destruct (Subcon.falsy _ || Subcon.falsy _).
  - unfold mbind, M_bind, logger. apply IH.
  - unfold mbind at 1 2 3, M_bind at 1 2 3, logger at 1 2.
    match goal with
    | |- context [Subcon.get_subscription_from_airport ?u ?c ?s] =>
        pose proof (stopped_returns_none u c s) as Hnone;
        destruct (Subcon.get_subscription_from_airport u c s) as [r st']
    end.
    simpl in Hnone. subst r. cbn [truthy_opt negb].
    unfold mbind, M_bind, logger. apply IH.
Qed.

(** Whatever the airports and the world, [merge_all_nodes] returns the local
    entries and nothing else. *)
Lemma merge_all_nodes_local_only (airports : list (gmap string (list N)))
    (local_nodes : str) (st : state) :
  (Subcon.merge_all_nodes airports local_nodes st).1 =
    Ret (join [10%N] (local_entries local_nodes)).
Proof.
  unfold Subcon.merge_all_nodes.
  destruct local_nodes as [|c s].
  - cbn [truthy]. unfold mbind, M_bind, mret at 1, M_ret at 1.
    pose proof (airport_loop_unchanged airports [] st) as Hl.
    destruct (Subcon.airport_loop airports [] st) as [r st'].
    simpl in Hl. by subst r.
  - cbn [truthy]. unfold mbind, M_bind, logger, mret at 1, M_ret at 1.
    match goal with
    | |- context [Subcon.airport_loop airports ?a ?s] =>
        pose proof (airport_loop_unchanged airports a s) as Hl;
        destruct (Subcon.airport_loop airports a s) as [r st']
    end.
    simpl in Hl. subst r. unfold mret, M_ret. cbn [fst].
    by rewrite local_loop_spec.
Qed.

End Merge.

(** C3, at the input of the specification's example: two airports, the first
    failing at the dashboard fetch, the second serving a dashboard that holds
    its subscription link (which the patterns under the debugging stop find)
    and a subscription with the two lines n1 and n2.  The merged output is the
    local nodes alone: the lines of the second airport are missing. *)
Theorem merge_loses_working_airport :
  (@requests_get Demo.env Demo.url_a (Subcon.headers (py "sid=1")) ()).1
    = Raise RequestException
  ∧ (@requests_get Demo.env Demo.url_b (Subcon.headers (py "sid=2")) ()).1
    = Ret (Response 200 Demo.page_b)
  ∧ @find_all_a_href Demo.env Demo.page_b = [Demo.sub_b]
  ∧ group0 <$> Subcon.first_search Subcon.patterns Demo.sub_b = Some Demo.sub_b
  ∧ (@Subcon.get_subscription_content Demo.env Demo.sub_b Demo.st0).1
    = Ret (Some (py "n1" ++ [10%N] ++ py "n2"))
  ∧ (@Subcon.merge_all_nodes Demo.env Demo.airports (py "l1|l2") Demo.st0).1
    = Ret (py "l1" ++ [10%N] ++ py "l2").
Proof.
  split_and!; by vm_compute.
Qed.

(** ** The matcher and the language of a pattern *)

Lemma star_fallback {A} (p : N → bool) (s : str) (k : str → option A) :
  is_Some (k s) → is_Some (star p s k).
Proof.
  intros Hk. destruct s as [|c s]; simpl; [done|].
  destruct (p c); [|done]. by destruct (star p s k).
Qed.

Lemma star_sound {A} (p : N → bool) (s : str) (k : str → option A) (x : A) :
  star p s k = Some x →
  ∃ a b, s = a ++ b ∧ forallb p a = true ∧ k b = Some x.
Proof.
  revert x; induction s as [|c s IH]; intros x; simpl.
  - intros Hk. by exists [], [].
  - destruct (p c) eqn:Hp.
    + destruct (star p s k) as [y|] eqn:Hs.
      * intros [= ->]. destruct (IH _ eq_refl) as (a & b & -> & Ha & Hk).
        exists (c :: a), b. simpl. by rewrite Hp, Ha.
      * intros Hk. by exists [], (c :: s).
    + intros Hk. by exists [], (c :: s).
Qed.

Lemma star_complete {A} (p : N → bool) (a b : str) (k : str → option A) :
  forallb p a = true → is_Some (k b) → is_Some (star p (a ++ b) k).
Proof.
  intros Ha Hk. induction a as [|c a IH]; simpl.
  - by apply star_fallback.
  - simpl in Ha. apply andb_true_iff in Ha as [Hc Ha]. rewrite Hc.
    destruct (IH Ha) as [y ->]. by eexists.
Qed.

Lemma take_app_suffix (a b : str) : take (length (a ++ b) - length b) (a ++ b) = a.
Proof.
  rewrite length_app. replace (length a + length b - length b) with (length a) by lia.
  by rewrite take_app_length.
Qed.

Lemma rmatch_sound {A} (r : regex) :
  ∀ (s : str) (g : option str) (k : str → option str → option A) (x : A),
    rmatch r s g k = Some x →
    ∃ a b g', s = a ++ b ∧ lang r a ∧ k b g' = Some x.
Proof.
  induction r as [l|p|p|p|r1 IH1|r1 IH1 r2 IH2|r1 IH1 r2 IH2|r1 IH1];
    intros s g k x; simpl.
  - destruct (startswith l s) eqn:Hl; [|done].
    apply startswith_inv in Hl as [t ->]. rewrite drop_app_length.
    intros Hk. by exists l, t, g.
  - destruct s as [|c s]; [done|]. destruct (p c) eqn:Hp; [|done].
    intros Hk. exists [c], s, g. eauto.
  - intros Hs. apply star_sound in Hs as (a & b & -> & Ha & Hk).
    by exists a, b, g.
  - destruct s as [|c s]; [done|]. destruct (p c) eqn:Hp; [|done].
    intros Hs. apply star_sound in Hs as (a & b & -> & Ha & Hk).
    exists (c :: a), b, g. simpl. by rewrite Hp, Ha.
  - destruct (rmatch r1 s g k) as [y|] eqn:H1.
    + intros [= ->]. destruct (IH1 _ _ _ _ H1) as (a & b & g' & -> & Ha & Hk).
      exists a, b, g'. eauto.
    + intros Hk. exists [], s, g. eauto.
  - destruct (rmatch r1 s g k) as [y|] eqn:H1.
    + intros [= ->]. destruct (IH1 _ _ _ _ H1) as (a & b & g' & -> & Ha & Hk).
      exists a, b, g'. eauto.
    + intros H2. destruct (IH2 _ _ _ _ H2) as (a & b & g' & -> & Ha & Hk).
      exists a, b, g'. eauto.
  - intros H1. destruct (IH1 _ _ _ _ H1) as (a1 & b1 & g1 & -> & Ha1 & H2).
    destruct (IH2 _ _ _ _ H2) as (a2 & b2 & g2 & -> & Ha2 & Hk).
    exists (a1 ++ a2), b2, g2. rewrite <- app_assoc. eauto 8.
  - intros H1. destruct (IH1 _ _ _ _ H1) as (a & b & g' & -> & Ha & Hk).
    rewrite take_app_suffix in Hk. exists a, b, (Some a). eauto.
Qed.

Lemma rmatch_complete {A} (r : regex) :
  ∀ (a b : str) (g : option str) (k : str → option str → option A),
    lang r a → (∀ g', is_Some (k b g')) → is_Some (rmatch r (a ++ b) g k).
Proof.
  induction r as [l|p|p|p|r1 IH1|r1 IH1 r2 IH2|r1 IH1 r2 IH2|r1 IH1];
    intros a b g k; simpl.
  - intros -> Hk. by rewrite startswith_app, drop_app_length.
  - intros (c & -> & Hc) Hk. simpl. by rewrite Hc.
  - intros Ha Hk. by apply star_complete.
  - intros [Hne Ha] Hk. destruct a as [|c a]; [done|]. simpl in *.
    apply andb_true_iff in Ha as [Hc Ha]. rewrite Hc. by apply star_complete.
  - intros [-> | Ha] Hk.
    + simpl. by destruct (rmatch r1 b g k).
    + destruct (IH1 a b g k Ha Hk) as [y ->]. by eexists.
  - intros [Ha | Ha] Hk.
    + destruct (IH1 a b g k Ha Hk) as [y ->]. by eexists.
    + destruct (rmatch r1 (a ++ b) g k); [by eexists|]. by apply IH2.
  - intros (a1 & a2 & -> & Ha1 & Ha2) Hk. rewrite <- app_assoc.
    apply IH1; [done|]. intros g'. by apply IH2.
  - intros Ha Hk. apply IH1; [done|]. intros _. apply Hk.
Qed.

(** A pattern of the form: text, a group, text (the shape of [url_re] and of
    pattern2): what a match at the start of [s] looks like, and when there is
    one. *)
Lemma match_at_group_sound (pre post : str) (inner : regex) (s : str) (m : rematch) :
  match_at (seq_of [Lit pre; Group inner; Lit post]) s = Some m →
  ∃ a, lang inner a
       ∧ s = pre ++ a ++ post ++ after m
       ∧ group1 m = Some a
       ∧ group0 m = pre ++ a ++ post.
Proof.
  unfold match_at. cbn [seq_of foldr rmatch].
  destruct (startswith pre s) eqn:Hpre; [|done].
  apply startswith_inv in Hpre as [t ->]. rewrite drop_app_length.
  intros Hm. apply rmatch_sound in Hm as (a & b & g' & -> & Ha & Hm).
  rewrite take_app_suffix in Hm.
  destruct (startswith post b) eqn:Hpost; [|done].
  apply startswith_inv in Hpost as [rest ->]. rewrite drop_app_length in Hm.
  cbn [startswith drop length] in Hm. injection Hm as <-. cbn [after group1 group0].
  exists a. split_and!; try done.
  replace (pre ++ a ++ post ++ rest) with ((pre ++ a ++ post) ++ rest)
    by by rewrite <- !app_assoc.
  apply take_app_suffix.
Qed.

Lemma match_at_group_complete (pre post : str) (inner : regex) (a rest : str) :
  lang inner a →
  is_Some (match_at (seq_of [Lit pre; Group inner; Lit post]) (pre ++ a ++ post ++ rest)).
Proof.
  intros Ha. unfold match_at. cbn [seq_of foldr rmatch].
  rewrite startswith_app, drop_app_length.
  apply rmatch_complete; [done|]. intros _.
  rewrite startswith_app, drop_app_length. by cbn.
Qed.

Lemma search_here (r : regex) (s : str) (m : rematch) :
  match_at r s = Some m → search r s = Some m.
Proof. intros Hm. destruct s; simpl; by rewrite Hm. Qed.

Lemma search_skip (r : regex) (pre s : str) :
  (∀ p1 p2, pre = p1 ++ p2 → p2 ≠ [] → match_at r (p2 ++ s) = None) →
  search r (pre ++ s) = search r s.
Proof.
  induction pre as [|c pre IH]; intros Hno; [done|].
  pose proof (Hno [] (c :: pre) eq_refl ltac:(done)) as H0.
  cbn [app] in *. cbn [search]. rewrite H0.
  apply IH. intros p1 p2 -> Hp2. by apply (Hno (c :: p1) p2).
Qed.

Lemma search_none (r : regex) (s : str) :
  search r s = None ↔ ∀ p1 p2, s = p1 ++ p2 → match_at r p2 = None.
Proof.
  split.
  - induction s as [|c s IH]; simpl.
    + destruct (match_at r []) eqn:Hm; [done|].
      intros _ p1 p2 Hs. symmetry in Hs. apply app_eq_nil in Hs as [-> ->]. done.
    + destruct (match_at r (c :: s)) eqn:Hm; [done|]. intros Hs p1 p2 Hp.
      destruct p1 as [|c' p1]; simpl in Hp.
      * by subst p2.
      * injection Hp as -> ->. by apply (IH Hs p1).
  - intros Hno. induction s as [|c s IH]; simpl.
    + by rewrite (Hno [] []).
    + rewrite (Hno [] (c :: s)) by done. apply IH.
      intros p1 p2 ->. by apply (Hno (c :: p1) p2).
Qed.

(** A successful search stands at the leftmost position with a match. *)
Lemma search_some_inv (r : regex) (s : str) (m : rematch) :
  search r s = Some m →
  ∃ p1 p2, s = p1 ++ p2 ∧ match_at r p2 = Some m
           ∧ ∀ q1 q2, p1 = q1 ++ q2 → q2 ≠ [] → match_at r (q2 ++ p2) = None.
Proof.
  induction s as [|c s IH]; cbn [search].
  - destruct (match_at r []) as [m0|] eqn:Hm; [|done]. intros [= ->].
    exists [], []. split_and!; [done..|].
    intros q1 q2 Hq Hq2. symmetry in Hq. apply app_eq_nil in Hq as [_ ->]. done.
  - destruct (match_at r (c :: s)) as [m0|] eqn:Hm.
    + intros [= ->]. exists [], (c :: s). split_and!; [done..|].
      intros q1 q2 Hq Hq2. symmetry in Hq. apply app_eq_nil in Hq as [_ ->]. done.
    + intros Hs. destruct (IH Hs) as (p1 & p2 & -> & Hp2 & Hno).
      exists (c :: p1), p2. split_and!; [done..|].
      intros q1 q2 Hq Hq2. destruct q1 as [|c' q1]; cbn [app] in Hq.
      * subst q2. done.
      * injection Hq as -> ->. by apply (Hno q1 q2).
Qed.

(** ** extract_url_re: the value attribute *)

Lemma forallb_not_dq (body : str) : forallb not_dq body = true ↔ dq ∉ body.
Proof.
  induction body as [|c body IH]; simpl.
  - split; [|done]. intros _ Hin. by apply elem_of_nil in Hin.
  - rewrite andb_true_iff, IH, not_elem_of_cons. unfold not_dq.
    rewrite negb_true_iff, N.eqb_neq. naive_solver.
Qed.

Lemma app_dq_inj (a a' r r' : str) :
  dq ∉ a → dq ∉ a' → a ++ dq :: r = a' ++ dq :: r' → a = a' ∧ r = r'.
Proof.
  revert a'; induction a as [|c a IH]; intros [|c' a'] Ha Ha' Heq; simpl in Heq.
  - by injection Heq as ->.
  - injection Heq as <- _. apply not_elem_of_cons in Ha' as [? _]. done.
  - injection Heq as -> _. apply not_elem_of_cons in Ha as [? _]. done.
  - injection Heq as -> Heq.
    apply not_elem_of_cons in Ha as [_ Ha]. apply not_elem_of_cons in Ha' as [_ Ha'].
    destruct (IH a' Ha Ha' Heq) as [-> ->]. done.
Qed.

Lemma lang_url_inner (sub_pattern a : str) :
  lang (seq_of [Lit (py "http"); Opt (Lit (py "s")); Lit (py "://");
                Plus not_dq; Lit (py "?mu="); Lit sub_pattern]) a
  ↔ mu_url sub_pattern a.
Proof.
  cbn [seq_of foldr lang]. unfold mu_url. split.
  - intros (a1 & r1 & -> & -> & s & r2 & -> & Hs & a3 & r3 & -> & -> &
            body & r4 & -> & [Hne Hbody] & a5 & r5 & -> & -> &
            a6 & r6 & -> & -> & ->).
    apply forallb_not_dq in Hbody. rewrite app_nil_r.
    destruct Hs as [-> | ->].
    + exists (py "http"), body. split_and!; auto.
    + exists (py "https"), body. split_and!; auto.
  - intros (scheme & body & Hs & Hne & Hbody & ->).
    apply forallb_not_dq in Hbody.
    destruct Hs as [-> | ->].
    + exists (py "http"), (py "://" ++ body ++ py "?mu=" ++ sub_pattern).
      split_and!; [done..|].
      exists [], (py "://" ++ body ++ py "?mu=" ++ sub_pattern).
      split_and!; [done|by left|].
      exists (py "://"), (body ++ py "?mu=" ++ sub_pattern). split_and!; [done..|].
      exists body, (py "?mu=" ++ sub_pattern). split_and!; [done..|].
      exists (py "?mu="), sub_pattern. split_and!; [done..|].
      exists sub_pattern, []. by rewrite app_nil_r.
    + exists (py "http"), (py "s://" ++ body ++ py "?mu=" ++ sub_pattern).
      split_and!; [done..|].
      exists (py "s"), (py "://" ++ body ++ py "?mu=" ++ sub_pattern).
      split_and!; [done|by right|].
      exists (py "://"), (body ++ py "?mu=" ++ sub_pattern). split_and!; [done..|].
      exists body, (py "?mu=" ++ sub_pattern). split_and!; [done..|].
      exists (py "?mu="), sub_pattern. split_and!; [done..|].
      exists sub_pattern, []. by rewrite app_nil_r.
Qed.

Lemma mu_url_no_dq (sub_pattern u : str) :
  mu_url sub_pattern u → dq ∉ sub_pattern → dq ∉ u.
Proof.
  intros (scheme & body & Hs & _ & Hbody & ->) Hsub.
  assert (dq ∉ scheme) by (destruct Hs as [-> | ->]; no_dq).
  assert (dq ∉ py "://") by no_dq. assert (dq ∉ py "?mu=") by no_dq.
  rewrite !elem_of_app. naive_solver.
Qed.

Lemma match_at_url_re_inv (sub_pattern s : str) (m : rematch) :
  match_at (GetSuburl.url_re sub_pattern) s = Some m →
  ∃ u, mu_url sub_pattern u ∧ s = value_attr u ++ after m ∧ group1 m = Some u.
Proof.
  intros Hm. apply match_at_group_sound in Hm as (a & Ha & Hs & Hg1 & _).
  apply lang_url_inner in Ha. exists a. split_and!; [done| |done].
  rewrite Hs. unfold value_attr. by rewrite <- !app_assoc.
Qed.

(** A pattern of the form: text, a group, a double quote, whose group cannot
    hold a double quote: the match at an occurrence is the occurrence. *)
Lemma match_at_quoted (pre : str) (inner : regex) (a rest : str) :
  lang inner a → (∀ x, lang inner x → dq ∉ x) →
  match_at (seq_of [Lit pre; Group inner; Lit [dq]]) (pre ++ a ++ [dq] ++ rest) =
    Some (ReMatch (pre ++ a ++ [dq]) (Some a) rest).
Proof.
  intros Ha Hdq.
  destruct (match_at_group_complete pre [dq] inner a rest Ha) as [m Hm].
  rewrite Hm.
  apply match_at_group_sound in Hm as (a' & Ha' & Heq & Hg1 & Hg0).
  apply app_inv_head in Heq. cbn [app] in Heq.
  apply app_dq_inj in Heq as [Haa Hrest]; [|by apply Hdq..].
  destruct m as [g0 g1 aft]. cbn [group0 group1 after] in *. by subst.
Qed.

Lemma match_at_url_re (sub_pattern u rest : str) :
  mu_url sub_pattern u → dq ∉ sub_pattern →
  match_at (GetSuburl.url_re sub_pattern) (value_attr u ++ rest) =
    Some (ReMatch (value_attr u) (Some u) rest).
Proof.
  intros Hu Hsub.
  replace (value_attr u ++ rest) with ((py "value=" ++ [dq]) ++ u ++ [dq] ++ rest)
    by (unfold value_attr; by rewrite <- !app_assoc).
  unfold GetSuburl.url_re. rewrite match_at_quoted.
  - unfold value_attr. by rewrite <- !app_assoc.
  - by apply lang_url_inner.
  - intros x Hx. apply lang_url_inner in Hx. by eapply mu_url_no_dq.
Qed.

(** The attribute that comes first on the page is the one [extract_url_re]
    returns. *)
Lemma extract_url_re_first (sub_pattern pre u post : str) :
  mu_url sub_pattern u → dq ∉ sub_pattern →
  first_value_attr sub_pattern pre u post →
  GetSuburl.extract_url_re (pre ++ value_attr u ++ post) sub_pattern = Some u.
Proof.
  intros Hu Hsub Hfirst. unfold GetSuburl.extract_url_re.
  rewrite search_skip.
  - by rewrite (search_here _ _ _ (match_at_url_re _ _ post Hu Hsub)).
  - intros p1 p2 -> Hp2.
    destruct (match_at _ _) as [m|] eqn:Hm; [|done].
    apply match_at_url_re_inv in Hm as (u' & Hu' & Heq & _).
    specialize (Hfirst p1 u' (after m) Hu').
    rewrite <- !app_assoc, Heq in Hfirst.
    specialize (Hfirst eq_refl). rewrite length_app in Hfirst.
    destruct p2; [done|]. simpl in Hfirst. lia.
Qed.

(** Two attributes that are both the first of the page are the same. *)
Lemma first_value_attr_unique (sub_pattern pre u post pre' u' post' : str) :
  mu_url sub_pattern u → mu_url sub_pattern u' → dq ∉ sub_pattern →
  pre ++ value_attr u ++ post = pre' ++ value_attr u' ++ post' →
  first_value_attr sub_pattern pre u post →
  first_value_attr sub_pattern pre' u' post' →
  pre' = pre ∧ u' = u ∧ post' = post.
Proof.
  intros Hu Hu' Hsub Heq Hfirst Hfirst'.
  pose proof (Hfirst _ _ _ Hu' Heq) as Hle.
  pose proof (Hfirst' _ _ _ Hu (eq_sym Heq)) as Hle'.
  assert (Hlen : length pre = length pre') by lia.
  apply app_inj_1 in Heq as [-> Heq]; [|done].
  unfold value_attr in Heq. rewrite <- !app_assoc in Heq.
  apply app_inv_head in Heq. cbn [app] in Heq.
  injection Heq as Heq.
  apply app_dq_inj in Heq as [-> ->]; [done|by eapply mu_url_no_dq..].
Qed.

(** On a page that holds such an attribute, [extract_url_re] returns the URL
    of the first one. *)
Lemma extract_url_re_leftmost (sub_pattern pre u post : str) :
  mu_url sub_pattern u → dq ∉ sub_pattern →
  ∃ pre' u' post',
    pre ++ value_attr u ++ post = pre' ++ value_attr u' ++ post'
    ∧ mu_url sub_pattern u'
    ∧ first_value_attr sub_pattern pre' u' post'
    ∧ GetSuburl.extract_url_re (pre ++ value_attr u ++ post) sub_pattern = Some u'.
Proof.
  intros Hu Hsub. unfold GetSuburl.extract_url_re.
  destruct (search _ _) as [m|] eqn:Hs.
  - apply search_some_inv in Hs as (p1 & p2 & Heq & Hm & Hno).
    apply match_at_url_re_inv in Hm as (u' & Hu' & -> & Hg).
    exists p1, u', (after m). split_and!; [done|done| |done].
    intros pre'' u'' post'' Hu'' Heq'.
    destruct (decide (length p1 ≤ length pre'')) as [|Hlt]; [done|]. exfalso.
    assert (Hp1 : p1 = pre'' ++ drop (length pre'') p1).
    { rewrite <- (take_drop (length pre'') p1) at 1. f_equal.
      apply (f_equal (take (length pre''))) in Heq'.
      rewrite take_app_le, take_app_length in Heq' by lia. done. }
    set (q2 := drop (length pre'') p1) in *.
    assert (Hq2 : q2 ≠ []).
    { intros Hnil. apply (f_equal length) in Hp1.
      rewrite length_app, Hnil in Hp1. simpl in Hp1. lia. }
    pose proof (Hno _ _ Hp1 Hq2) as Hnone.
    rewrite Hp1, <- app_assoc in Heq'. apply app_inv_head in Heq'.
    rewrite Heq', match_at_url_re in Hnone by done. done.
  - exfalso. rewrite search_none in Hs.
    specialize (Hs pre (value_attr u ++ post) eq_refl).
    rewrite match_at_url_re in Hs by done. done.
Qed.

Lemma contains_here (needle s : str) :
  startswith needle s = true → contains needle s = true.
Proof. intros Hs. destruct s; simpl; by rewrite Hs. Qed.

Lemma contains_app_mid (needle x y : str) : contains needle (x ++ needle ++ y) = true.
Proof.
  induction x as [|c x IH].
  - cbn [app]. apply contains_here, startswith_app.
  - cbn [app contains]. rewrite IH. apply orb_true_r.
Qed.

(** The opening of a value attribute with an http(s) URL. *)
Lemma value_attr_opening (sub_pattern u post : str) :
  mu_url sub_pattern u →
  ∃ t, value_attr u ++ post = (py "value=" ++ [dq] ++ py "http") ++ t.
Proof.
  intros (scheme & body & Hs & _ & _ & ->). unfold value_attr.
  destruct Hs as [-> | ->]; eexists; rewrite <- !app_assoc; cbn; reflexivity.
Qed.

(** The opening cannot start inside itself: its first letter occurs once. *)
Lemma opening_no_overlap (p2 t t' : str) :
  p2 ++ (py "value=" ++ [dq] ++ py "http") ++ t = (py "value=" ++ [dq] ++ py "http") ++ t' →
  p2 = [] ∨ ∃ p2', p2 = (py "value=" ++ [dq] ++ py "http") ++ p2'.
Proof.
  intros Heq.
  destruct p2 as [|c0 p2]; [by left|]. right.
  py_eval_in Heq.
  do 10 (destruct p2 as [|? p2]; [cbn [app] in Heq; congruence|]).
  cbn [app] in Heq. injection Heq as -> -> -> -> -> -> -> -> -> -> -> _.
  by exists p2.
Qed.

(** A page without the opening before the attribute: the attribute is the
    first. *)
Lemma first_value_attr_absent (sub_pattern pre u post : str) :
  mu_url sub_pattern u →
  contains (py "value=" ++ [dq] ++ py "http") pre = false →
  first_value_attr sub_pattern pre u post.
Proof.
  intros Hu Habs pre' u' post' Hu' Heq.
  destruct (decide (length pre ≤ length pre')) as [|Hlt]; [done|]. exfalso.
  assert (Hpre : pre = pre' ++ drop (length pre') pre).
  { rewrite <- (take_drop (length pre') pre) at 1. f_equal.
    apply (f_equal (take (length pre'))) in Heq.
    rewrite take_app_le, take_app_length in Heq by lia. done. }
  set (p2 := drop (length pre') pre) in *.
  rewrite Hpre, <- app_assoc in Heq. apply app_inv_head in Heq.
  destruct (value_attr_opening _ _ post Hu) as [t Ht].
  destruct (value_attr_opening _ _ post' Hu') as [t' Ht'].
  rewrite Ht, Ht' in Heq.
  apply opening_no_overlap in Heq as [Hnil | [p2' Hp2]].
  - apply (f_equal length) in Hpre. rewrite length_app, Hnil in Hpre.
    simpl in Hpre. lia.
  - rewrite Hpre, Hp2, contains_app_mid in Habs. done.
Qed.

Lemma mu_url_nonempty (sub_pattern u : str) : mu_url sub_pattern u → u ≠ [].
Proof. intros (scheme & body & [-> | ->] & _ & _ & ->); done. Qed.

Section Strategy1.
Context `{Env}.

(** [get_subscription_from_airport] of get_suburl.py on a page where
    [extract_url_re] finds a link: the four records written are the visit, the
    status, the login and the link; [extract_subscription_url] is not called
    (the warning that precedes its call is not written). *)
Lemma airport_found_by_url_re (airport_url user_agent cookie html u : str)
    (st : state) (w : world) :
  GetSuburl.extract_url_re html (py "clash") = Some u → u ≠ [] →
  curl_cffi_get airport_url (GetSuburl.headers user_agent) (cookie_spec cookie) (net st)
    = (Ret (Response 200 html), w) →
  GetSuburl.get_subscription_from_airport airport_url user_agent cookie st =
    (Ret (Some u),
     State w (log st ++
       [Log INFO "正在访问机场: {airport_url}" [VStr airport_url];
        Log INFO "响应状态码: {resp.status_code}" [VNum 200];
        Log INFO "✅ {airport_url} 登录成功！" [VStr airport_url];
        Log INFO "找到订阅链接: {subscription_url}" [VStr u]])).
Proof.
  intros Hre Hne Hget. unfold GetSuburl.get_subscription_from_airport.
  rewrite parse_cookie_string_eq.
  unfold try_except, mbind, M_bind, logger, lift, http. cbn [net log].
  rewrite Hget. cbn [net log status_code text]. rewrite N.eqb_refl, Hre.
  destruct u as [|c u]; [done|]. cbn [truthy_opt truthy default net log].
  unfold mret, M_ret, id. cbn [net log]. by rewrite <- !app_assoc.
Qed.

End Strategy1.

(** C1: on every page that holds the attribute value= with, in double quotes,
    an http(s) URL ending in ?mu=clash, [extract_url_re] with 'clash' returns
    the quoted URL of the first attribute of that form on the page, so exactly
    the URL of the given attribute when that one is the first; and
    [get_subscription_from_airport], given the page with status 200, returns
    it at once: its log holds the visit, the status, the login and the link,
    and neither the warning written before [extract_subscription_url] is
    called nor any record of its methods. *)
Theorem value_attribute_first_strategy `{Env} (pre u post : str) :
  mu_url (py "clash") u →
  ∃ pre' u' post',
    pre ++ value_attr u ++ post = pre' ++ value_attr u' ++ post'
    ∧ mu_url (py "clash") u'
    ∧ first_value_attr (py "clash") pre' u' post'
    ∧ (first_value_attr (py "clash") pre u post → u' = u)
    ∧ GetSuburl.extract_url_re (pre ++ value_attr u ++ post) (py "clash") = Some u'
    ∧ ∀ (airport_url user_agent cookie : str) (st : state) (w : world),
        curl_cffi_get airport_url (GetSuburl.headers user_agent) (cookie_spec cookie)
                      (net st)
          = (Ret (Response 200 (pre ++ value_attr u ++ post)), w) →
        GetSuburl.get_subscription_from_airport airport_url user_agent cookie st =
          (Ret (Some u'),
           State w (log st ++
             [Log INFO "正在访问机场: {airport_url}" [VStr airport_url];
              Log INFO "响应状态码: {resp.status_code}" [VNum 200];
              Log INFO "✅ {airport_url} 登录成功！" [VStr airport_url];
              Log INFO "找到订阅链接: {subscription_url}" [VStr u']])).
Proof.
  intros Hu.
  assert (Hsub : dq ∉ py "clash") by (apply has_char_false; by vm_compute).
  destruct (extract_url_re_leftmost _ pre u post Hu Hsub)
    as (pre' & u' & post' & Heq & Hu' & Hfirst' & Hre).
  exists pre', u', post'. split_and!; try done.
  - intros Hfirst.
    by destruct (first_value_attr_unique _ _ _ _ _ _ _ Hu Hu' Hsub Heq Hfirst Hfirst')
      as (_ & -> & _).
  - intros airport_url user_agent cookie st w Hget.
    eapply airport_found_by_url_re; [done| |done]. by eapply mu_url_nonempty.
Qed.

(** The fixture of the specification: an input field whose value is
    https://x/y?mu=clash. *)
Lemma value_attribute_first_strategy_witness :
  mu_url (py "clash") (py "https://x/y?mu=clash")
  ∧ GetSuburl.extract_url_re
      (py "<input id=sub " ++ value_attr (py "https://x/y?mu=clash") ++ py " readonly>")
      (py "clash") = Some (py "https://x/y?mu=clash").
Proof.
  assert (Hu : mu_url (py "clash") (py "https://x/y?mu=clash")).
  { exists (py "https"), (py "x/y"). split_and!; [by right|done| |done].
    apply has_char_false. by vm_compute. }
  split; [exact Hu|].
  destruct (@value_attribute_first_strategy Demo.env (py "<input id=sub ")
              (py "https://x/y?mu=clash") (py " readonly>") Hu)
    as (pre' & u' & post' & _ & _ & _ & Hsame & Hre & _).
  rewrite Hre. f_equal. apply Hsame.
  apply first_value_attr_absent; [done|]. by vm_compute.
Defined.

(** ** finditer and pattern2 *)

Lemma finditer_from_sound (r : regex) (s : str) :
  ∀ (k : nat) (m : rematch),
    m ∈ finditer_from r k s → ∃ p1 p2, s = p1 ++ p2 ∧ match_at r p2 = Some m.
Proof.
  induction s as [|c s IH]; intros k m.
  - destruct k; simpl; [|by intros ?%elem_of_nil].
    destruct (match_at r []) as [m0|] eqn:Hm; [|by intros ?%elem_of_nil].
    intros ->%list_elem_of_singleton. by exists [], [].
  - destruct k; cbn [finditer_from].
    + destruct (match_at r (c :: s)) as [m0|] eqn:Hm.
      * intros [-> | Hin]%elem_of_cons; [by exists [], (c :: s)|].
        destruct (IH _ _ Hin) as (p1 & p2 & -> & Hp). by exists (c :: p1), p2.
      * intros Hin. destruct (IH _ _ Hin) as (p1 & p2 & -> & Hp).
        by exists (c :: p1), p2.
    + intros Hin. destruct (IH _ _ Hin) as (p1 & p2 & -> & Hp).
      by exists (c :: p1), p2.
Qed.

Lemma finditer_skip (r : regex) (a s : str) :
  finditer_from r (length a) (a ++ s) = finditer_from r 0 s.
Proof. induction a as [|c a IH]; [done|]. apply IH. Qed.

Lemma finditer_no_match (r : regex) (pre s : str) :
  (∀ p1 p2, pre = p1 ++ p2 → p2 ≠ [] → match_at r (p2 ++ s) = None) →
  finditer r (pre ++ s) = finditer r s.
Proof.
  unfold finditer. induction pre as [|c pre IH]; intros Hno; [done|].
  pose proof (Hno [] (c :: pre) eq_refl ltac:(done)) as H0.
  cbn [app] in *. cbn [finditer_from]. rewrite H0.
  apply IH. intros p1 p2 -> Hp2. by apply (Hno (c :: p1) p2).
Qed.

Lemma finditer_here (r : regex) (a rest : str) (g : option str) :
  a ≠ [] →
  match_at r (a ++ rest) = Some (ReMatch a g rest) →
  finditer r (a ++ rest) = ReMatch a g rest :: finditer r rest.
Proof.
  intros Ha Hm. unfold finditer. destruct a as [|c a]; [done|].
  cbn [app] in *. cbn [finditer_from]. rewrite Hm. cbn [group0 length].
  f_equal. replace (S (length a) - 1) with (length a) by lia.
  apply finditer_skip.
Qed.

Lemma lang_href_inner (a : str) :
  lang (seq_of [Lit (py "http"); Opt (Lit (py "s")); Lit (py "://"); Plus not_dq]) a
  ↔ abs_url a.
Proof.
  cbn [seq_of foldr lang]. unfold abs_url. split.
  - intros (a1 & r1 & -> & -> & s & r2 & -> & Hs & a3 & r3 & -> & -> &
            body & r4 & -> & [Hne Hbody] & ->).
    apply forallb_not_dq in Hbody. rewrite app_nil_r.
    destruct Hs as [-> | ->].
    + exists (py "http"), body. split_and!; auto.
    + exists (py "https"), body. split_and!; auto.
  - intros (scheme & body & Hs & Hne & Hbody & ->).
    apply forallb_not_dq in Hbody.
    destruct Hs as [-> | ->].
    + exists (py "http"), (py "://" ++ body). split_and!; [done..|].
      exists [], (py "://" ++ body). split_and!; [done|by left|].
      exists (py "://"), body. split_and!; [done..|].
      exists body, []. by rewrite app_nil_r.
    + exists (py "http"), (py "s://" ++ body). split_and!; [done..|].
      exists (py "s"), (py "://" ++ body). split_and!; [done|by right|].
      exists (py "://"), body. split_and!; [done..|].
      exists body, []. by rewrite app_nil_r.
Qed.

Lemma abs_url_no_dq (u : str) : abs_url u → dq ∉ u.
Proof.
  intros (scheme & body & Hs & _ & Hbody & ->).
  assert (dq ∉ scheme) by (destruct Hs as [-> | ->]; no_dq).
  assert (dq ∉ py "://") by no_dq.
  rewrite !elem_of_app. naive_solver.
Qed.

Lemma match_at_pattern2_inv (s : str) (m : rematch) :
  match_at GetSuburl.pattern2 s = Some m →
  ∃ u, abs_url u ∧ s = href_attr u ++ after m ∧ group1 m = Some u.
Proof.
  intros Hm. apply match_at_group_sound in Hm as (a & Ha & Hs & Hg1 & _).
  apply lang_href_inner in Ha. exists a. split_and!; [done| |done].
  rewrite Hs. unfold href_attr. by rewrite <- !app_assoc.
Qed.

Lemma match_at_pattern2 (u rest : str) :
  abs_url u →
  match_at GetSuburl.pattern2 (href_attr u ++ rest) =
    Some (ReMatch (href_attr u) (Some u) rest).
Proof.
  intros Hu.
  replace (href_attr u ++ rest) with ((py "href=" ++ [dq]) ++ u ++ [dq] ++ rest)
    by (unfold href_attr; by rewrite <- !app_assoc).
  unfold GetSuburl.pattern2. rewrite match_at_quoted.
  - unfold href_attr. by rewrite <- !app_assoc.
  - by apply lang_href_inner.
  - intros x Hx. apply lang_href_inner in Hx. by apply abs_url_no_dq.
Qed.

(** Every match of pattern2 has its group. *)
Lemma finditer_pattern2_group (html : str) (m : rematch) :
  m ∈ finditer GetSuburl.pattern2 html → is_Some (group1 m).
Proof.
  intros Hin. apply finditer_from_sound in Hin as (p1 & p2 & _ & Hm).
  apply match_at_pattern2_inv in Hm as (u & _ & _ & ->). by eexists.
Qed.

(** Every element of [abs_hrefs] is a double-quoted absolute href of the page. *)
Lemma abs_hrefs_sound (html u : str) :
  u ∈ abs_hrefs html →
  abs_url u ∧ ∃ pre post, html = pre ++ href_attr u ++ post.
Proof.
  unfold abs_hrefs. intros (m & Hin & Hg)%list_elem_of_omap.
  apply finditer_from_sound in Hin as (p1 & p2 & -> & Hm).
  apply match_at_pattern2_inv in Hm as (u' & Hu' & -> & Hg').
  rewrite Hg in Hg'. injection Hg' as ->. split; [done|]. by exists p1, (after m).
Qed.

Section Methods.
Context `{Env}.

Lemma href_loop_find (ms : list rematch) :
  (∀ m, m ∈ ms → is_Some (group1 m)) →
  GetSuburl.href_loop ms = Ret (List.find has_keyword (omap group1 ms)).
Proof.
  induction ms as [|m ms IH]; intros Hg; [done|].
  cbn [GetSuburl.href_loop omap list_omap].
  destruct (Hg m ltac:(left)) as [u ->]. cbn [List.find].
  destruct (has_keyword u); [done|].
  apply IH. intros m' Hm'. apply Hg. by right.
Qed.

(** Method 2 returns the first of the absolute hrefs that holds a keyword;
    it never raises. *)
Lemma method2_find (html : str) :
  GetSuburl.method2 html = Ret (List.find has_keyword (abs_hrefs html)).
Proof.
  unfold GetSuburl.method2, abs_hrefs. apply href_loop_find.
  intros m. apply finditer_pattern2_group.
Qed.


Lemma method3_returns (html base_url : str) (st : state) :
  ∃ r st', GetSuburl.method3 html base_url st = (Ret r, st').
Proof.
  unfold GetSuburl.method3, try_except, lift.
  destruct (BeautifulSoup html ≫= _) as [r|e]; [by eexists _, _|].
  unfold mbind, M_bind, logger, mret, M_ret. by eexists _, _.
Qed.

Lemma method3_not_found (html base_url : str) (st : state) :
  (∀ u, (sp ← BeautifulSoup html; GetSuburl.link_loop base_url (find_all_a_href sp))
        ≠ Ret (Some u)) →
  (GetSuburl.method3 html base_url st).1 = Ret None.
Proof.
  intros Hno. unfold GetSuburl.method3, try_except, lift.
  destruct (BeautifulSoup html ≫= _) as [[u|]|e]; [by destruct (Hno u)|done|done].
Qed.

Lemma extract_subscription_url_returns (html base_url : str) (st : state) :
  ∃ r st', GetSuburl.extract_subscription_url html base_url st = (Ret r, st').
Proof.
  unfold GetSuburl.extract_subscription_url.
  destruct (GetSuburl.method1 html); [by eexists _, _|].
  rewrite method2_find. unfold mbind, M_bind, lift.
  destruct (List.find _ _); [by eexists _, _|]. apply method3_returns.
Qed.

End Methods.

(** The opening of an absolute href attribute. *)
Lemma href_attr_opening (u post : str) :
  abs_url u →
  ∃ t, href_attr u ++ post = (py "href=" ++ [dq] ++ py "http") ++ t.
Proof.
  intros (scheme & body & Hs & _ & _ & ->). unfold href_attr.
  destruct Hs as [-> | ->]; eexists; rewrite <- !app_assoc; cbn; reflexivity.
Qed.

Lemma href_opening_no_overlap (p2 t t' : str) :
  p2 ++ (py "href=" ++ [dq] ++ py "http") ++ t = (py "href=" ++ [dq] ++ py "http") ++ t' →
  p2 = [] ∨ ∃ p2', p2 = (py "href=" ++ [dq] ++ py "http") ++ p2'.
Proof.
  intros Heq.
  destruct p2 as [|c0 p2]; [by left|]. right.
  py_eval_in Heq.
  do 9 (destruct p2 as [|? p2]; [cbn [app] in Heq; congruence|]).
  cbn [app] in Heq. injection Heq as -> -> -> -> -> -> -> -> -> -> _.
  by exists p2.
Qed.

(** On a page whose text before an absolute href attribute does not hold the
    opening of one, that attribute is the first match and the scan goes on
    after it. *)
Lemma abs_hrefs_first (pre u post : str) :
  abs_url u →
  contains (py "href=" ++ [dq] ++ py "http") pre = false →
  abs_hrefs (pre ++ href_attr u ++ post) = u :: abs_hrefs post.
Proof.
  intros Hu Habs. unfold abs_hrefs.
  rewrite finditer_no_match.
  - rewrite (finditer_here _ _ _ (Some u)).
    + done.
    + unfold href_attr. by destruct (py "href=").
    + by apply match_at_pattern2.
  - intros p1 p2 -> Hp2.
    destruct (match_at _ _) as [m|] eqn:Hm; [|done]. exfalso.
    apply match_at_pattern2_inv in Hm as (u' & Hu' & Heq & _).
    destruct (href_attr_opening _ post Hu) as [t Ht].
    destruct (href_attr_opening _ (after m) Hu') as [t' Ht'].
    rewrite Ht, Ht' in Heq.
    apply href_opening_no_overlap in Heq as [Hnil | [p2' ->]]; [done|].
    by rewrite contains_app_mid in Habs.
Qed.

(** ** extract_subscription_url *)

(** C2: [extract_subscription_url] returns for every page and base URL (it
    never raises, whatever the parser and [urljoin] do); when [extract_url_re]
    and its three methods find nothing it returns [None], and so does
    [get_subscription_from_airport] on that page; and an exception of the
    parser is logged as a warning and read as not found. *)
Theorem extractor_not_found `{Env} (html base_url : str) (st : state) :
  (∃ r st', GetSuburl.extract_subscription_url html base_url st = (Ret r, st'))
  ∧ (GetSuburl.extract_url_re html (py "clash") = None →
     GetSuburl.method1 html = None →
     GetSuburl.method2 html = Ret None →
     (∀ u, (sp ← BeautifulSoup html; GetSuburl.link_loop base_url (find_all_a_href sp))
           ≠ Ret (Some u)) →
     (GetSuburl.extract_subscription_url html base_url st).1 = Ret None
     ∧ ∀ (user_agent cookie : str) (w : world),
         curl_cffi_get base_url (GetSuburl.headers user_agent) (cookie_spec cookie)
                       (net st) = (Ret (Response 200 html), w) →
         (GetSuburl.get_subscription_from_airport base_url user_agent cookie st).1
           = Ret None)
  ∧ (∀ e, GetSuburl.method1 html = None →
          GetSuburl.method2 html = Ret None →
          BeautifulSoup html = Raise e →
          GetSuburl.extract_subscription_url html base_url st =
            (Ret None,
             State (net st) (log st ++ [Log WARNING "BeautifulSoup 解析失败: {e}" [VExn e]]))).
Proof.
  split_and!.
  - apply extract_subscription_url_returns.
  - intros Hre H1 H2 H3.
    assert (Hgen : ∀ st0 : state,
              (GetSuburl.extract_subscription_url html base_url st0).1 = Ret None).
    { intros st0. unfold GetSuburl.extract_subscription_url.
      rewrite H1, H2. unfold mbind, M_bind, lift. by apply method3_not_found. }
    split; [apply Hgen|].
    intros user_agent cookie w Hget.
    unfold GetSuburl.get_subscription_from_airport.
    rewrite parse_cookie_string_eq.
    unfold try_except, mbind, M_bind, logger, lift, http. cbn [net log].
    rewrite Hget. cbn [net log status_code text]. rewrite N.eqb_refl, Hre.
    cbn [truthy_opt net log].
    match goal with
    | |- context [GetSuburl.extract_subscription_url html base_url ?s] =>
        pose proof (Hgen s) as Hs;
        destruct (GetSuburl.extract_subscription_url html base_url s) as [r st']
    end.
    cbn [fst] in Hs. subst r. done.
  - intros e H1 H2 Hbs. unfold GetSuburl.extract_subscription_url.
    rewrite H1, H2. unfold mbind at 1, M_bind at 1, lift at 1.
    unfold GetSuburl.method3, try_except, lift. rewrite Hbs.
    cbn [mbind result_bind]. unfold mbind, M_bind, logger, mret, M_ret. done.
Qed.

(** A page without any link, in the example world. *)
Lemma extractor_not_found_witness :
  (@GetSuburl.extract_subscription_url Demo.env
     (py "<html><p>nothing to copy here</p></html>") Demo.url_b Demo.st0).1 = Ret None.
Proof.
  refine (proj1 (proj1 (proj2 (@extractor_not_found Demo.env
            (py "<html><p>nothing to copy here</p></html>") Demo.url_b Demo.st0))
            _ _ _ _)).
  - by vm_compute.
  - by vm_compute.
  - by vm_compute.
  - intros u. by vm_compute.
Defined.




(** C6, as amended: method 2 scans the raw page text for the attribute href=
    with, in double quotes, a URL that starts with http:// or https://, in
    document order, and returns the first such URL that holds link, subscribe
    or sub in its lower-cased text.  Every URL it looks at is such an
    attribute of the page, and an attribute with no opening of one before it
    is looked at first, the scan going on behind it. *)
Theorem method2_absolute_hrefs `{Env} :
  (∀ html : str,
     GetSuburl.method2 html = Ret (List.find has_keyword (abs_hrefs html)))
  ∧ (∀ html u : str,
       u ∈ abs_hrefs html →
       abs_url u ∧ ∃ pre post, html = pre ++ href_attr u ++ post)
  ∧ (∀ pre u post : str,
       abs_url u →
       contains (py "href=" ++ [dq] ++ py "http") pre = false →
       abs_hrefs (pre ++ href_attr u ++ post) = u :: abs_hrefs post).
Proof.
  split_and!.
  - apply method2_find.
  - apply abs_hrefs_sound.
  - apply abs_hrefs_first.
Qed.

(** A page with two absolute hrefs, the second holding a keyword in capitals. *)
Lemma method2_absolute_hrefs_witness :
  abs_hrefs (py "<a " ++ href_attr (py "https://x/login")
             ++ py ">a</a><a " ++ href_attr (py "http://y/SUBSCRIBE/1") ++ py ">b</a>")
    = [py "https://x/login"; py "http://y/SUBSCRIBE/1"]
  ∧ @GetSuburl.method2 Demo.env
      (py "<a " ++ href_attr (py "https://x/login")
       ++ py ">a</a><a " ++ href_attr (py "http://y/SUBSCRIBE/1") ++ py ">b</a>")
    = Ret (Some (py "http://y/SUBSCRIBE/1")).
Proof.
  split.
  - rewrite (proj2 (proj2 (@method2_absolute_hrefs Demo.env))).
    + by vm_compute.
    + exists (py "https"), (py "x/login"). split_and!; [by right|done| |done].
      apply has_char_false. by vm_compute.
    + by vm_compute.
  - rewrite (proj1 (@method2_absolute_hrefs Demo.env)). by vm_compute.
Defined.

(** C6, as stated, fails on the anchor /sub/abc: it is a hyperlink of the
    page and holds the keyword sub, and method 2 returns nothing. *)
Lemma method2_misses_relative_href :
  page_hrefs (py "<a href=" ++ [dq] ++ py "/sub/abc" ++ [dq] ++ py ">copy</a>")
    = [py "/sub/abc"]
  ∧ List.find (@has_keyword Demo.env)
      (page_hrefs (py "<a href=" ++ [dq] ++ py "/sub/abc" ++ [dq] ++ py ">copy</a>"))
    = Some (py "/sub/abc")
  ∧ @GetSuburl.method2 Demo.env
      (py "<a href=" ++ [dq] ++ py "/sub/abc" ++ [dq] ++ py ">copy</a>")
    = Ret None.
Proof.
  split_and!; by vm_compute.
Qed.

(** ** Base64 *)

Lemma check_below_spec (n : nat) (f : N → bool) :
  check_below n f = true → ∀ v, (v < N.of_nat n)%N → f v = true.
Proof.
  unfold check_below. rewrite forallb_forall. intros Hall v Hv.
  apply Hall. apply list_elem_of_In, list_elem_of_fmap.
  exists (N.to_nat v). split; [by rewrite N2Nat.id|].
  apply elem_of_seq. lia.
Qed.

Lemma b64_value_char (v : N) : (v < 64)%N → b64_value (b64_char v) = Some v.
Proof.
  intros Hv.
  apply (check_below_spec 64
           (λ v, bool_decide (b64_value (b64_char v) = Some v))) in Hv;
    [by apply bool_decide_eq_true in Hv | by vm_compute].
Qed.

Lemma b64_char_ascii (v : N) : is_ascii (b64_char v) = true.
Proof.
  unfold b64_char, is_ascii.
  repeat case_match; try (apply N.ltb_lt; vm_compute; reflexivity);
    repeat match goal with
           | H : (_ <? _)%N = true |- _ => apply N.ltb_lt in H
           | H : (_ <? _)%N = false |- _ => apply N.ltb_ge in H
           end; apply N.ltb_lt; lia.
Qed.

Lemma b64encode_ascii (bs : bytes) : forallb is_ascii (b64encode bs) = true.
Proof.
  induction bs as [bs IH] using (induction_ltof1 _ length). unfold ltof in IH.
  destruct bs as [|b0 [|b1 [|b2 r]]]; cbn [b64encode]; [done|..].
  - cbn [forallb]. by rewrite !b64_char_ascii.
  - cbn [forallb]. by rewrite !b64_char_ascii.
  - cbn [forallb app]. rewrite !b64_char_ascii. cbn [andb].
    apply IH. simpl. lia.
Qed.

(** One step of the decoder's loop on a character of the alphabet. *)
Lemma a2b_loop_alphabet (c v : N) (s : bytes) (quad_pos : nat) (leftchar : N)
    (pads : nat) :
  b64_value c = Some v →
  a2b_base64_loop (c :: s) quad_pos leftchar pads =
    match quad_pos with
    | 0 => a2b_base64_loop s 1 v 0
    | 1 => bs ← a2b_base64_loop s 2 (v mod 16)%N 0; Ret ((leftchar * 4 + v / 16)%N :: bs)
    | 2 => bs ← a2b_base64_loop s 3 (v mod 4)%N 0; Ret ((leftchar * 16 + v / 4)%N :: bs)
    | _ => bs ← a2b_base64_loop s 0 0%N 0; Ret ((leftchar * 64 + v)%N :: bs)
    end.
Proof.
  intros Hv. cbn [a2b_base64_loop].
  destruct (c =? ch "=")%N eqn:Hc.
  - apply N.eqb_eq in Hc as ->. by vm_compute in Hv.
  - by rewrite Hv.
Qed.

(** One step of the loop on the pad character. *)
Lemma a2b_loop_pad (s : bytes) (quad_pos : nat) (leftchar : N) (pads : nat) :
  a2b_base64_loop (ch "=" :: s) quad_pos leftchar pads =
    if (2 <=? quad_pos) && (4 <=? quad_pos + S pads) then Ret []
    else a2b_base64_loop s quad_pos leftchar (if 2 <=? quad_pos then S pads else pads).
Proof. cbn [a2b_base64_loop]. by rewrite N.eqb_refl. Qed.

Lemma a2b_loop_encode (bs : bytes) :
  forallb is_byte bs = true →
  a2b_base64_loop (b64encode bs) 0 0%N 0 = Ret bs.
Proof.
  induction bs as [bs IH] using (induction_ltof1 _ length). unfold ltof in IH.
  intros Hbytes.
  destruct bs as [|b0 [|b1 [|b2 r]]]; cbn [b64encode]; [done|..];
    cbn [forallb] in Hbytes; unfold is_byte in Hbytes;
    repeat (apply andb_true_iff in Hbytes as [?%N.ltb_lt Hbytes]).
  - rewrite (a2b_loop_alphabet _ (b0 / 4)) by (apply b64_value_char; lia).
    rewrite (a2b_loop_alphabet _ ((b0 mod 4) * 16)) by (apply b64_value_char; lia).
    rewrite !a2b_loop_pad. cbn [Nat.leb Nat.add andb mbind result_bind].
    do 2 f_equal. lia.
  - rewrite (a2b_loop_alphabet _ (b0 / 4)) by (apply b64_value_char; lia).
    rewrite (a2b_loop_alphabet _ ((b0 mod 4) * 16 + b1 / 16))
      by (apply b64_value_char; lia).
    rewrite (a2b_loop_alphabet _ ((b1 mod 16) * 4)) by (apply b64_value_char; lia).
    rewrite !a2b_loop_pad. cbn [Nat.leb Nat.add andb mbind result_bind].
    f_equal. f_equal; [lia|]. f_equal. lia.
  - cbn [app].
    rewrite (a2b_loop_alphabet _ (b0 / 4)) by (apply b64_value_char; lia).
    rewrite (a2b_loop_alphabet _ ((b0 mod 4) * 16 + b1 / 16))
      by (apply b64_value_char; lia).
    rewrite (a2b_loop_alphabet _ ((b1 mod 16) * 4 + b2 / 64))
      by (apply b64_value_char; lia).
    rewrite (a2b_loop_alphabet _ (b2 mod 64)) by (apply b64_value_char; lia).
    rewrite IH; [|simpl; lia|done].
    cbn [mbind result_bind]. f_equal.
    f_equal; [lia|]. f_equal; [lia|]. f_equal. lia.
Qed.

(** Decoding an encoding gives the bytes back. *)
Lemma b64decode_b64encode (bs : bytes) :
  forallb is_byte bs = true → b64decode (b64encode bs) = Ret bs.
Proof.
  intros Hbytes. unfold b64decode. rewrite b64encode_ascii.
  by apply a2b_loop_encode.
Qed.

Lemma b64_value_ascii (c v : N) : b64_value c = Some v → is_ascii c = true.
Proof.
  unfold b64_value, is_ascii. ch_eval.
  repeat case_match; try done; intros _; lia.
Qed.

(** On valid base64 the decoder of the library agrees with the strict one. *)
Lemma b64decode_strict_agrees (s : str) (bs : bytes) :
  b64decode_strict s = Some bs →
  forallb is_ascii s = true ∧ a2b_base64_loop s 0 0%N 0 = Ret bs.
Proof.
  revert bs. induction s as [s IH] using (induction_ltof1 _ length).
  unfold ltof in IH. intros bs.
  destruct s as [|c0 [|c1 [|c2 [|c3 rest]]]]; cbn [b64decode_strict]; try done.
  { by intros [= <-]. }
  destruct (b64_value c0) as [v0|] eqn:H0; [|done].
  destruct (b64_value c1) as [v1|] eqn:H1; [|done].
  pose proof (b64_value_ascii _ _ H0) as A0.
  pose proof (b64_value_ascii _ _ H1) as A1.
  rewrite (a2b_loop_alphabet _ _ _ _ _ _ H0), (a2b_loop_alphabet _ _ _ _ _ _ H1).
  cbn [forallb]. rewrite A0, A1. cbn [andb].
  destruct ((c2 =? ch "=") && (c3 =? ch "="))%N eqn:Hpp.
  - apply andb_true_iff in Hpp as [->%N.eqb_eq ->%N.eqb_eq].
    destruct rest; [|done]. intros [= <-].
    rewrite !a2b_loop_pad. by cbn.
  - destruct (b64_value c2) as [v2|] eqn:H2; [|done].
    pose proof (b64_value_ascii _ _ H2) as A2.
    rewrite (a2b_loop_alphabet _ _ _ _ _ _ H2), A2. cbn [andb].
    destruct (c3 =? ch "=")%N eqn:Hp.
    + apply N.eqb_eq in Hp as ->. destruct rest; [|done]. intros [= <-].
      rewrite !a2b_loop_pad. by cbn.
    + destruct (b64_value c3) as [v3|] eqn:H3; [|done].
      pose proof (b64_value_ascii _ _ H3) as A3.
      rewrite (a2b_loop_alphabet _ _ _ _ _ _ H3), A3. cbn [andb].
      destruct (b64decode_strict rest) as [bs'|] eqn:Hrest; [|done].
      cbn [mbind option_bind]. intros [= <-].
      destruct (IH rest ltac:(simpl; lia) bs' Hrest) as [Hascii ->].
      split; [done|]. cbn [mbind result_bind app]. done.
Qed.

Lemma b64decode_valid (s : str) (bs : bytes) :
  b64decode_strict s = Some bs → b64decode s = Ret bs.
Proof.
  intros Hs. apply b64decode_strict_agrees in Hs as [Hascii Hloop].
  unfold b64decode. by rewrite Hascii.
Qed.

Lemma b64_char_not_pad (v : N) : (v < 64)%N → (b64_char v =? ch "=")%N = false.
Proof.
  intros Hv.
  apply (check_below_spec 64 (λ v, negb (b64_char v =? ch "=")%N)) in Hv;
    [by apply negb_true_iff in Hv | by vm_compute].
Qed.

(** The encoder's output is valid base64, and its strict decoding is the
    bytes. *)
Lemma b64decode_strict_encode (bs : bytes) :
  forallb is_byte bs = true → b64decode_strict (b64encode bs) = Some bs.
Proof.
  induction bs as [bs IH] using (induction_ltof1 _ length). unfold ltof in IH.
  intros Hbytes.
  destruct bs as [|b0 [|b1 [|b2 r]]]; cbn [b64encode]; [done|..];
    cbn [forallb] in Hbytes; unfold is_byte in Hbytes;
    repeat (apply andb_true_iff in Hbytes as [?%N.ltb_lt Hbytes]);
    cbn [app b64decode_strict];
    rewrite ?b64_value_char by lia.
  - rewrite !N.eqb_refl. cbn [andb]. do 2 f_equal. lia.
  - rewrite N.eqb_refl, andb_true_r, b64_char_not_pad by lia.
    do 2 f_equal; [lia|]. f_equal. lia.
  - rewrite (b64_char_not_pad (b2 mod 64)) by lia. rewrite andb_false_r.
    rewrite IH; [|simpl; lia|done]. cbn [mbind option_bind app].
    do 2 f_equal; [lia|]. f_equal; [lia|]. f_equal. lia.
Qed.

(** ** UTF-8 *)

Lemma utf8_encode_char_decode (c : N) (b rest : bytes) :
  utf8_encode_char c = Ret b →
  utf8_decode (b ++ rest) = (s ← utf8_decode rest; Ret (c :: s)).
Proof.
  unfold utf8_encode_char.
  destruct (c <? 0x80)%N eqn:H1; [|destruct (c <? 0x800)%N eqn:H2;
    [|destruct (c <? 0x10000)%N eqn:H3;
      [destruct ((0xD800 <=? c) && (c <=? 0xDFFF))%N eqn:H4
      |destruct (c <? 0x110000)%N eqn:H5]]];
    try done; intros [= <-]; hyps_to_props; cbn [app utf8_decode].
  - by rewrite (proj2 (N.ltb_lt _ _) H1).
  - repeat decide_if. destruct (utf8_decode rest); [|done].
    cbn [mbind result_bind]. do 2 f_equal. lia.
  - repeat decide_if. cbv zeta. repeat decide_if.
    destruct (utf8_decode rest); [|done].
    cbn [mbind result_bind]. do 2 f_equal. lia.
  - repeat decide_if. cbv zeta. repeat decide_if.
    destruct (utf8_decode rest); [|done].
    cbn [mbind result_bind]. do 2 f_equal. lia.
Qed.

(** Decoding an encoding gives the text back. *)
Lemma utf8_decode_encode (s : str) (bs : bytes) :
  utf8_encode s = Ret bs → utf8_decode bs = Ret s.
Proof.
  revert bs; induction s as [|c s IH]; intros bs; cbn [utf8_encode].
  - by intros [= <-].
  - destruct (utf8_encode_char c) as [b|] eqn:Hc; [|done].
    destruct (utf8_encode s) as [bs'|] eqn:Hs; [|done].
    cbn [mbind result_bind]. intros [= <-].
    rewrite (utf8_encode_char_decode _ _ _ Hc), (IH _ eq_refl). done.
Qed.

Lemma utf8_encode_char_scalar (c : N) :
  utf8_encode_char c =
    if is_scalar c then utf8_encode_char c else Raise UnicodeEncodeError.
Proof.
  destruct (is_scalar c) eqn:Hc; [done|]. unfold utf8_encode_char.
  repeat (case_match; try done); exfalso; bool_lia.
Qed.

(** Text of scalar values encodes; any other text raises. *)
Lemma utf8_encode_scalars (s : str) :
  forallb is_scalar s = true →
  ∃ bs, utf8_encode s = Ret bs ∧ forallb is_byte bs = true.
Proof.
  induction s as [|c s IH]; cbn [forallb utf8_encode]; [by exists []|].
  intros [Hc Hs]%andb_true_iff. destruct (IH Hs) as (bs & -> & Hbs).
  unfold is_scalar in Hc. unfold utf8_encode_char.
  destruct (c <? 0x80)%N eqn:H1; [|destruct (c <? 0x800)%N eqn:H2;
    [|destruct (c <? 0x10000)%N eqn:H3;
      [destruct ((0xD800 <=? c) && (c <=? 0xDFFF))%N eqn:H4
      |destruct (c <? 0x110000)%N eqn:H5]]];
    hyps_to_props; apply orb_true_iff in Hc; hyps_to_props;
    try (exfalso; bool_lia);
    (eexists; split; [reflexivity|]); cbn [app forallb]; rewrite Hbs;
    repeat (apply andb_true_iff; split); try done; bool_lia.
Qed.

Lemma utf8_encode_not_scalars (s : str) :
  forallb is_scalar s = false → utf8_encode s = Raise UnicodeEncodeError.
Proof.
  induction s as [|c s IH]; cbn [forallb utf8_encode]; [done|].
  intros [Hc | Hs]%andb_false_iff.
  - rewrite utf8_encode_char_scalar, Hc. done.
  - rewrite (IH Hs). unfold utf8_encode_char. by repeat case_match.
Qed.

Lemma utf8_encode_ascii (s : str) :
  forallb is_ascii s = true → utf8_encode s = Ret s.
Proof.
  induction s as [|c s IH]; cbn [forallb utf8_encode]; [done|].
  intros [Hc Hs]%andb_true_iff. rewrite (IH Hs).
  unfold utf8_encode_char. unfold is_ascii in Hc. by rewrite Hc.
Qed.

Lemma utf8_decode_ascii (s : str) :
  forallb is_ascii s = true → utf8_decode s = Ret s.
Proof.
  induction s as [|c s IH]; cbn [forallb utf8_decode]; [done|].
  intros [Hc Hs]%andb_true_iff. rewrite (IH Hs).
  unfold is_ascii in Hc. by rewrite Hc.
Qed.

Lemma utf8_encode_bytes (s : str) (bs : bytes) :
  utf8_encode s = Ret bs → forallb is_byte bs = true.
Proof.
  intros Hs. destruct (forallb is_scalar s) eqn:Hsc.
  - destruct (utf8_encode_scalars s Hsc) as (bs' & Hbs' & Hbytes). congruence.
  - rewrite (utf8_encode_not_scalars s Hsc) in Hs. done.
Qed.

(** The base64 text of UTF-8 text decodes to the text. *)
Lemma decode_encoded_text (s : str) (bs : bytes) :
  utf8_encode s = Ret bs →
  (b ← b64decode (b64encode bs); utf8_decode b) = Ret s.
Proof.
  intros Hs. rewrite b64decode_b64encode by by eapply utf8_encode_bytes.
  cbn [mbind result_bind]. by apply utf8_decode_encode.
Qed.

(** ** get_subscription_content *)

Section Content.
Context `{Env}.

Lemma get_subscription_content_normal_form (sub_url : str) (st : state) :
  Subcon.get_subscription_content sub_url st =
    let fetching := Log INFO "获取订阅内容: {sub_url}" [VStr sub_url] in
    match requests_get sub_url [] (net st) with
    | (Raise e, w) =>
        if is_RequestException e then
          (Ret None,
           State w (log st ++ [fetching; Log ERROR "获取订阅内容失败: {e}" [VExn e]]))
        else (Raise e, State w (log st ++ [fetching]))
    | (Ret response, w) =>
        if ((400 <=? status_code response) && (status_code response <? 600))%N then
          (Ret None,
           State w (log st ++
             [fetching;
              Log ERROR "获取订阅内容失败: {e}" [VExn (HTTPError (status_code response))]]))
        else
          match (bs ← b64decode (text response); utf8_decode bs) with
          | Ret content =>
              (Ret (Some content),
               State w (log st ++
                 [fetching;
                  Log INFO "成功解码订阅，节点数: {len(content.splitlines())}"
                      [VNum (N.of_nat (length (splitlines content)))]]))
          | Raise _ =>
              (Ret (Some (text response)),
               State w (log st ++
                 [fetching;
                  Log INFO "订阅未编码，直接使用原始内容，节点数: {len(response.text.splitlines())}"
                      [VNum (N.of_nat (length (splitlines (text response))))]]))
          end
    end.
Proof.
  unfold Subcon.get_subscription_content.
  unfold raise_for_status.
  unfold mbind, M_bind, try_except, logger, http, lift, raise, mret, M_ret.
  cbn [net log].
  destruct (requests_get _ _ _) as [[response|e] w]; cbn [net log].
  - destruct ((400 <=? status_code response) && _)%N; cbn [net log is_RequestException].
    + by rewrite <- app_assoc.
    + destruct (result_bind _ _ _ (b64decode (text response))) as [content|e];
        cbn [net log].
      * by rewrite <- !app_assoc.
      * by rewrite <- !app_assoc.
  - destruct (is_RequestException e); cbn [net log]; [|done].
    by rewrite <- app_assoc.
Qed.

End Content.

(** C4, as amended: once the body is fetched, [get_subscription_content]
    returns the UTF-8 text of the base64 decoding when [b64decode] (which
    skips every character outside the alphabet and stops at the padding) and
    the UTF-8 decoder both succeed, and the raw body unchanged when either
    raises; the failure is logged at INFO and never raised.  A body that is
    valid base64 and whose bytes are valid UTF-8 gives the decoded text; the
    base64 text of UTF-8 text is such a body, so the encoding of the lines
    node1 and node2 gives the two lines. *)
Theorem decode_step `{Env} :
  (∀ (sub_url : str) (st : state),
     Subcon.get_subscription_content sub_url st =
       let fetching := Log INFO "获取订阅内容: {sub_url}" [VStr sub_url] in
       match requests_get sub_url [] (net st) with
       | (Raise e, w) =>
           if is_RequestException e then
             (Ret None,
              State w (log st ++ [fetching; Log ERROR "获取订阅内容失败: {e}" [VExn e]]))
           else (Raise e, State w (log st ++ [fetching]))
       | (Ret response, w) =>
           if ((400 <=? status_code response) && (status_code response <? 600))%N then
             (Ret None,
              State w (log st ++
                [fetching;
                 Log ERROR "获取订阅内容失败: {e}"
                     [VExn (HTTPError (status_code response))]]))
           else
             match (bs ← b64decode (text response); utf8_decode bs) with
             | Ret content =>
                 (Ret (Some content),
                  State w (log st ++
                    [fetching;
                     Log INFO "成功解码订阅，节点数: {len(content.splitlines())}"
                         [VNum (N.of_nat (length (splitlines content)))]]))
             | Raise _ =>
                 (Ret (Some (text response)),
                  State w (log st ++
                    [fetching;
                     Log INFO "订阅未编码，直接使用原始内容，节点数: {len(response.text.splitlines())}"
                         [VNum (N.of_nat (length (splitlines (text response))))]]))
             end
       end)
  ∧ (∀ (body : str) (bs : bytes) (content : str),
       b64decode_strict body = Some bs →
       utf8_decode bs = Ret content →
       (b ← b64decode body; utf8_decode b) = Ret content)
  ∧ (∀ (s : str) (bs : bytes),
       utf8_encode s = Ret bs →
       b64decode_strict (b64encode bs) = Some bs
       ∧ (b ← b64decode (b64encode bs); utf8_decode b) = Ret s)
  ∧ (bs ← utf8_encode (py "node1" ++ [10%N] ++ py "node2"); Ret (b64encode bs))
      = Ret (py "bm9kZTEKbm9kZTI=")
  ∧ (b ← b64decode (py "bm9kZTEKbm9kZTI="); utf8_decode b)
      = Ret (py "node1" ++ [10%N] ++ py "node2").
Proof.
  split_and!.
  - apply get_subscription_content_normal_form.
  - intros body bs content Hbody Hbs. by rewrite (b64decode_valid _ _ Hbody).
  - intros s bs Hs. split; [|by apply decode_encoded_text].
    apply b64decode_strict_encode. by eapply utf8_encode_bytes.
  - by vm_compute.
  - by vm_compute.
Qed.

(** The two fixtures of the specification in the example world: the base64
    body gives the two lines; the body n1, newline, n2 (no base64 of UTF-8
    text) comes back as it is. *)
Lemma decode_step_witness :
  (@Subcon.get_subscription_content Demo.env Demo.sub_d Demo.st0).1
    = Ret (Some (py "node1" ++ [10%N] ++ py "node2"))
  ∧ (@Subcon.get_subscription_content Demo.env Demo.sub_b Demo.st0).1
    = Ret (Some (py "n1" ++ [10%N] ++ py "n2")).
Proof.
  split.
  - rewrite (proj1 (@decode_step Demo.env) Demo.sub_d Demo.st0). by vm_compute.
  - rewrite (proj1 (@decode_step Demo.env) Demo.sub_b Demo.st0). by vm_compute.
Defined.

(** C4, as stated, fails on bodies that are no valid base64 and still
    decode: the text aGk= followed by a line that is no base64 decodes to hi,
    since the decoder stops at the padding; and on the body of four
    exclamation marks [b64decode] skips every character and returns no bytes,
    so the step returns the empty text and not the raw body. *)
Lemma decode_step_not_raw :
  valid_base64 (py "aGk=" ++ [10%N] ++ py "!not base64!") = false
  ∧ (b ← b64decode (py "aGk=" ++ [10%N] ++ py "!not base64!"); utf8_decode b)
    = Ret (py "hi")
  ∧ valid_base64 (py "!!!!") = false
  ∧ (@requests_get Demo.env Demo.sub_c [] ()).1 = Ret (Response 200 (py "!!!!"))
  ∧ b64decode (py "!!!!") = Ret []
  ∧ (@Subcon.get_subscription_content Demo.env Demo.sub_c Demo.st0).1 = Ret (Some [])
  ∧ (@Subcon.get_subscription_content Demo.env Demo.sub_c Demo.st0).1
    ≠ Ret (Some (py "!!!!")).
Proof.
  split_and!; by vm_compute.
Qed.

(** ** Percent-encoding *)

Lemma hex_value_digit (n : N) : (n < 16)%N → hex_value (hex_digit n) = Some n.
Proof.
  intros Hn.
  apply (check_below_spec 16
           (λ n, bool_decide (hex_value (hex_digit n) = Some n))) in Hn;
    [by apply bool_decide_eq_true in Hn | by vm_compute].
Qed.

Lemma unquote_quote_byte (b : N) (rest : str) :
  is_byte b = true →
  unquote_plus_to_bytes (quote_byte b ++ rest) = b :: unquote_plus_to_bytes rest.
Proof.
  intros Hb. unfold quote_byte.
  destruct (b =? 32)%N eqn:H32.
  - apply N.eqb_eq in H32 as ->. done.
  - destruct (always_safe b) eqn:Hsafe.
    + cbn [app unquote_plus_to_bytes].
      unfold always_safe in Hsafe. ch_eval.
      replace (b =? 43)%N with false by bool_lia.
      replace (b =? 37)%N with false by bool_lia. done.
    + cbn [app unquote_plus_to_bytes]. ch_eval. cbn [N.eqb Pos.eqb].
      rewrite !hex_value_digit by bool_lia. f_equal. bool_lia.
Qed.

Lemma unquote_quote (s : bytes) :
  forallb is_byte s = true →
  unquote_plus_to_bytes (mjoin (quote_byte <$> s)) = s.
Proof.
  induction s as [|b s IH]; [done|]. cbn [forallb].
  intros [Hb Hs]%andb_true_iff.
  change (unquote_plus_to_bytes (quote_byte b ++ mjoin (quote_byte <$> s)) = b :: s).
  rewrite unquote_quote_byte by done. by rewrite (IH Hs).
Qed.

Lemma quote_plus_ascii (s : str) :
  forallb is_ascii s = true → quote_plus s = Ret (mjoin (quote_byte <$> s)).
Proof. intros Hs. unfold quote_plus. by rewrite utf8_encode_ascii. Qed.

Lemma is_ascii_byte (s : str) : forallb is_ascii s = true → forallb is_byte s = true.
Proof.
  induction s as [|c s IH]; cbn [forallb]; [done|].
  intros [Hc Hs]%andb_true_iff. rewrite (IH Hs), andb_true_r. bool_lia.
Qed.

(** ** generate_subconvert_url *)

Section Converter.
Context `{Env}.

Lemma generate_subconvert_url_eq (m f : str) (bs : bytes) (target : str) :
  utf8_encode m = Ret bs →
  quote_plus f = Ret target →
  Subcon.generate_subconvert_url m f =
    Ret (SUBCONVERT_URL ++ py "?" ++
         join (py "&")
           [py "target=" ++ target;
            py "url=" ++ mjoin (quote_byte <$> b64encode bs);
            py "insert=false";
            py "config=https%3A%2F%2Fraw.githubusercontent.com%2FACL4SSR%2FACL4SSR%2Fmaster%2FClash%2Fconfig%2FACL4SSR_Online.ini";
            py "emoji=true"; py "list=false"; py "udp=true"; py "tfo=false";
            py "scv=false"; py "fdn=false"; py "sort=false"]).
Proof.
  intros Hm Hf. unfold Subcon.generate_subconvert_url.
  rewrite Hm. cbn [mbind result_bind].
  rewrite utf8_decode_ascii by apply b64encode_ascii.
  cbn [mbind result_bind]. unfold urlencode, Subcon.params.
  cbn [urlencode_items]. rewrite Hf.
  rewrite (quote_plus_ascii (b64encode bs)) by apply b64encode_ascii.
  quote_lits. cbn [mbind result_bind]. reflexivity.
Qed.

(** Text with a surrogate cannot be encoded: the builder raises. *)
Lemma generate_subconvert_url_raises (m f : str) :
  forallb is_scalar m = false →
  Subcon.generate_subconvert_url m f = Raise UnicodeEncodeError.
Proof.
  intros Hm. unfold Subcon.generate_subconvert_url.
  by rewrite (utf8_encode_not_scalars m Hm).
Qed.

End Converter.

(** C9: for merged text [m] and a target format [f] (text of Unicode scalar
    values, which is what UTF-8 encodes), [generate_subconvert_url] is the
    configured base URL, a question mark, and the parameters joined by
    ampersands in the order of the dict: target = the quoted [f], url = the
    quoted base64 of the UTF-8 bytes of [m], then the fixed flags and the
    rule-set URL.  Undoing the quoting of the url parameter and decoding the
    base64 gives the bytes of [m] back, and these decode to [m]; undoing the
    quoting of target gives the bytes of [f]. *)
Theorem subconvert_url_round_trip `{Env} (m f : str) :
  forallb is_scalar m = true →
  forallb is_scalar f = true →
  ∃ (bs fb : bytes) (target : str),
    utf8_encode m = Ret bs
    ∧ utf8_encode f = Ret fb
    ∧ quote_plus f = Ret target
    ∧ Subcon.generate_subconvert_url m f =
        Ret (SUBCONVERT_URL ++ py "?" ++
             join (py "&")
               [py "target=" ++ target;
                py "url=" ++ mjoin (quote_byte <$> b64encode bs);
                py "insert=false";
                py "config=https%3A%2F%2Fraw.githubusercontent.com%2FACL4SSR%2FACL4SSR%2Fmaster%2FClash%2Fconfig%2FACL4SSR_Online.ini";
                py "emoji=true"; py "list=false"; py "udp=true"; py "tfo=false";
                py "scv=false"; py "fdn=false"; py "sort=false"])
    ∧ quote_plus (b64encode bs) = Ret (mjoin (quote_byte <$> b64encode bs))
    ∧ b64decode (unquote_plus_to_bytes (mjoin (quote_byte <$> b64encode bs))) = Ret bs
    ∧ utf8_decode bs = Ret m
    ∧ unquote_plus_to_bytes target = fb.
Proof.
  intros Hm Hf.
  destruct (utf8_encode_scalars m Hm) as (bs & Hbs & Hbytes).
  destruct (utf8_encode_scalars f Hf) as (fb & Hfb & Hfbytes).
  exists bs, fb, (mjoin (quote_byte <$> fb)).
  assert (Hq : quote_plus f = Ret (mjoin (quote_byte <$> fb)))
    by (unfold quote_plus; by rewrite Hfb).
  split_and!; try done.
  - by apply generate_subconvert_url_eq.
  - apply quote_plus_ascii, b64encode_ascii.
  - rewrite unquote_quote by apply is_ascii_byte, b64encode_ascii.
    by apply b64decode_b64encode.
  - by apply utf8_decode_encode.
  - by apply unquote_quote.
Qed.

(** The merged text n1, newline, n2 and the format clash. *)
Lemma subconvert_url_round_trip_witness :
  @Subcon.generate_subconvert_url Demo.env (py "n1" ++ [10%N] ++ py "n2") (py "clash")
    = Ret (py "http://65.49.200.39:25500/sub?target=clash&url=bjEKbjI%3D&insert=false&config=https%3A%2F%2Fraw.githubusercontent.com%2FACL4SSR%2FACL4SSR%2Fmaster%2FClash%2Fconfig%2FACL4SSR_Online.ini&emoji=true&list=false&udp=true&tfo=false&scv=false&fdn=false&sort=false")
  ∧ b64decode (unquote_plus_to_bytes (py "bjEKbjI%3D")) = Ret (py "n1" ++ [10%N] ++ py "n2").
Proof.
  destruct (@subconvert_url_round_trip Demo.env (py "n1" ++ [10%N] ++ py "n2")
              (py "clash") eq_refl eq_refl)
    as (bs & fb & target & Hbs & Hfb & Hq & Hurl & _ & Hdec & _ & _).
  vm_compute in Hbs. injection Hbs as <-.
  vm_compute in Hq. injection Hq as <-.
  split.
  - rewrite Hurl. by vm_compute.
  - by vm_compute.
Defined.

(** * More of the two files *)

(** ** strip *)

Lemma lstrip_split (s : str) :
  ∃ p, s = p ++ lstrip s ∧ forallb isspace p = true.
Proof.
  induction s as [|c s IH]; simpl.
  - by exists [].
  - destruct (isspace c) eqn:Hc.
    + destruct IH as (p & Hp & Hsp). exists (c :: p). simpl.
      rewrite Hc, Hsp. by rewrite <- Hp.
    + by exists [].
Qed.

Lemma lstrip_no_leading_space (s : str) : no_leading_space (lstrip s) = true.
Proof.
  induction s as [|c s IH]; simpl; [done|].
  destruct (isspace c) eqn:Hc; [done|]. simpl. by rewrite Hc.
Qed.

Lemma lstrip_id (s : str) : no_leading_space s = true → lstrip s = s.
Proof.
  destruct s as [|c s]; simpl; [done|]. by intros ->%negb_true_iff.
Qed.

Lemma rstrip_split (s : str) :
  ∃ q, s = rstrip s ++ q ∧ forallb isspace q = true.
Proof.
  unfold rstrip. destruct (lstrip_split (reverse s)) as (p & Hp & Hsp).
  exists (reverse p). split.
  - rewrite <- reverse_app, <- Hp. by rewrite reverse_involutive.
  - rewrite forallb_forall in *. intros x Hx. apply Hsp.
    apply list_elem_of_In. apply list_elem_of_In in Hx. by apply elem_of_reverse.
Qed.

Lemma rstrip_no_leading_space (s : str) :
  no_leading_space s = true → no_leading_space (rstrip s) = true.
Proof.
  intros Hs. destruct (rstrip_split s) as (q & Hq & _).
  destruct (rstrip s) as [|c r]; [done|].
  rewrite Hq in Hs. done.
Qed.

Lemma strip_stripped (s : str) : stripped (strip s) = true.
Proof.
  unfold stripped, strip. apply andb_true_iff. split.
  - apply rstrip_no_leading_space, lstrip_no_leading_space.
  - unfold rstrip. rewrite reverse_involutive. apply lstrip_no_leading_space.
Qed.

Lemma stripped_strip (s : str) : stripped s = true → strip s = s.
Proof.
  unfold stripped, strip. intros [H1 H2]%andb_true_iff.
  rewrite (lstrip_id _ H1). unfold rstrip.
  by rewrite (lstrip_id _ H2), reverse_involutive.
Qed.

(** Stripping keeps a part of the text: what the text does not hold, the
    result does not hold. *)
Lemma strip_elem_of (c : N) (s : str) : c ∈ strip s → c ∈ s.
Proof.
  unfold strip. intros Hc.
  destruct (rstrip_split (lstrip s)) as (q & Hq & _).
  destruct (lstrip_split s) as (p & Hp & _).
  rewrite Hp, Hq. rewrite !elem_of_app. auto.
Qed.

(** ** split *)

Lemma split_nonempty (sep : N) (s : str) : split sep s ≠ [].
Proof. by rewrite split_cons. Qed.

Lemma before_first_elem_of (sep c : N) (s : str) : c ∈ before_first sep s → c ∈ s.
Proof.
  induction s as [|x s IH]; simpl; [done|].
  destruct (x =? sep)%N; [by intros ?%elem_of_nil|].
  intros [-> | Hc]%elem_of_cons; [by left|]. right. by apply IH.
Qed.

Lemma before_first_no_sep (sep : N) (s : str) : sep ∉ before_first sep s.
Proof.
  induction s as [|x s IH]; simpl; [by intros ?%elem_of_nil|].
  destruct (x =? sep)%N eqn:Hx; [by intros ?%elem_of_nil|].
  apply N.eqb_neq in Hx. intros [-> | Hc]%elem_of_cons; [done|]. by apply IH.
Qed.

Lemma after_first_elem_of (sep c : N) (s : str) : c ∈ after_first sep s → c ∈ s.
Proof.
  induction s as [|x s IH]; simpl; [done|].
  destruct (x =? sep)%N; intros Hc; right; [done|]. by apply IH.
Qed.

Lemma split_elem_of (sep : N) (s : str) (piece : str) (c : N) :
  piece ∈ split sep s → c ∈ piece → c ∈ s.
Proof.
  revert piece. induction s as [s IH] using (induction_ltof1 _ length).
  unfold ltof in IH. intros piece. rewrite split_cons.
  intros [-> | Hin]%elem_of_cons Hc; [by eapply before_first_elem_of|].
  destruct (has_char sep s) eqn:Hs; [|by apply elem_of_nil in Hin].
  eapply after_first_elem_of, IH; [|done..].
  clear -Hs. induction s as [|x s IHs]; simpl in *; [done|].
  rewrite (N.eqb_sym sep x) in Hs. destruct (x =? sep)%N; simpl in *; [lia|].
  specialize (IHs Hs). lia.
Qed.

Lemma split_no_sep (sep : N) (s : str) (piece : str) :
  piece ∈ split sep s → sep ∉ piece.
Proof.
  revert piece. induction s as [|x s IH]; intros piece; simpl.
  - intros ->%list_elem_of_singleton. by intros ?%elem_of_nil.
  - destruct (x =? sep)%N eqn:Hx.
    + intros [-> | Hin]%elem_of_cons; [by intros ?%elem_of_nil|]. by apply IH.
    + apply N.eqb_neq in Hx. pose proof (split_nonempty sep s) as Hne.
      destruct (split sep s) as [|h t]; [done|].
      intros [-> | Hin]%elem_of_cons.
      * intros [-> | Hc]%elem_of_cons; [done|]. eapply IH; [|done]. by left.
      * apply IH. by right.
Qed.

(** Text without the separator is one piece; joined pieces without the
    separator split back into the pieces. *)
Lemma split_one (sep : N) (s : str) : sep ∉ s → split sep s = [s].
Proof.
  induction s as [|x s IH]; simpl; [done|].
  intros [Hx Hs]%not_elem_of_cons.
  destruct (x =? sep)%N eqn:Hxs; [by apply N.eqb_eq in Hxs|].
  by rewrite (IH Hs).
Qed.

Lemma split_app_sep (sep : N) (a rest : str) :
  sep ∉ a → split sep (a ++ sep :: rest) = a :: split sep rest.
Proof.
  induction a as [|x a IH]; simpl.
  - intros _. by rewrite N.eqb_refl.
  - intros [Hx Ha]%not_elem_of_cons.
    destruct (x =? sep)%N eqn:Hxs; [by apply N.eqb_eq in Hxs|].
    by rewrite (IH Ha).
Qed.

Lemma split_join (sep : N) (pieces : list str) :
  pieces ≠ [] → (∀ piece, piece ∈ pieces → sep ∉ piece) →
  split sep (join [sep] pieces) = pieces.
Proof.
  induction pieces as [|a pieces IH]; [done|]. intros _ Hno.
  destruct pieces as [|b pieces].
  - simpl. apply split_one, Hno. by left.
  - change (join [sep] (a :: b :: pieces)) with (a ++ sep :: join [sep] (b :: pieces)).
    rewrite split_app_sep by (apply Hno; by left).
    rewrite IH; [done..|]. intros piece Hp. apply Hno. by right.
Qed.

(** ** parse_cookie_string: the entries *)

Lemma foldl_insert_lookup (items : list str) (d : gmap (list N) (list N)) (k : str) :
  foldl (λ d item, <[cookie_key item := cookie_value item]> d) d items !! k =
    match last (filter (λ item, cookie_key item = k) items) with
    | Some item => Some (cookie_value item)
    | None => d !! k
    end.
Proof.
  revert d. induction items as [|x items IH]; intros d; [done|].
  cbn [foldl]. rewrite IH. destruct (decide (cookie_key x = k)) as [Hk|Hk].
  - rewrite filter_cons_True by done. rewrite last_cons.
    destruct (last _); [done|]. by rewrite <- Hk, lookup_insert_eq.
  - rewrite filter_cons_False by done.
    destruct (last _); [done|]. by rewrite lookup_insert_ne.
Qed.

Lemma cookie_key_clean (item : str) :
  ch ";" ∉ item →
  stripped (cookie_key item) = true
  ∧ (ch "=" ∉ cookie_key item) ∧ (ch ";" ∉ cookie_key item).
Proof.
  intros Hsemi. unfold cookie_key. split_and!.
  - apply strip_stripped.
  - intros Hc%strip_elem_of. by apply before_first_no_sep in Hc.
  - intros Hc%strip_elem_of%before_first_elem_of. done.
Qed.

Lemma cookie_value_clean (item : str) :
  ch ";" ∉ item →
  stripped (cookie_value item) = true
  ∧ (ch "=" ∉ cookie_value item) ∧ (ch ";" ∉ cookie_value item).
Proof.
  intros Hsemi. unfold cookie_value. split_and!.
  - apply strip_stripped.
  - intros Hc%strip_elem_of. by apply before_first_no_sep in Hc.
  - intros Hc%strip_elem_of%before_first_elem_of%after_first_elem_of. done.
Qed.

(** X1: looking a name up in the dictionary of [parse_cookie_string] gives
    the value of the last item with that name (an item being a piece between
    semicolons that holds an equals sign), and nothing when no item has the
    name: a repeated cookie keeps its last value. *)
Theorem cookie_lookup_last (cookie_str : str) :
  ∃ d, GetSuburl.parse_cookie_string cookie_str = Ret d
       ∧ ∀ k : str,
           d !! k = cookie_value <$>
                      last (filter (λ item, cookie_key item = k) (cookie_items cookie_str)).
Proof.
  exists (cookie_spec cookie_str). split; [apply parse_cookie_string_eq|].
  intros k. unfold cookie_spec. rewrite foldl_insert_lookup.
  unfold cookie_items. by destruct (last _).
Qed.

(** X2: every name and value in the dictionary of [parse_cookie_string] is
    free of whitespace at both ends and holds neither an equals sign nor a
    semicolon. *)
Theorem cookie_entries_clean (cookie_str : str) :
  ∃ d, GetSuburl.parse_cookie_string cookie_str = Ret d
       ∧ ∀ k v : str,
           d !! k = Some v →
           stripped k = true ∧ stripped v = true
           ∧ (ch "=" ∉ k) ∧ (ch "=" ∉ v) ∧ (ch ";" ∉ k) ∧ (ch ";" ∉ v).
Proof.
  exists (cookie_spec cookie_str). split; [apply parse_cookie_string_eq|].
  intros k v. unfold cookie_spec. rewrite foldl_insert_lookup.
  destruct (last _) as [item|] eqn:Hlast; [|by rewrite lookup_empty].
  intros [= <-]. apply last_Some_elem_of in Hlast.
  apply list_elem_of_filter in Hlast as [<- Hitem].
  apply list_elem_of_filter in Hitem as [_ Hitem].
  apply split_no_sep in Hitem.
  destruct (cookie_key_clean item Hitem) as (? & ? & ?).
  destruct (cookie_value_clean item Hitem) as (? & ? & ?). done.
Qed.

(** ** merge_all_nodes: the local entries and the network *)

(** X3: every local node that [merge_all_nodes] keeps is not empty, has no
    whitespace at either end and holds no pipe. *)
Theorem local_entries_clean (local_nodes : str) :
  Forall clean_entry (Subcon.local_loop (split (ch "|") local_nodes) []).
Proof.
  rewrite local_loop_spec. cbn [app]. apply Forall_forall. intros e He.
  apply list_elem_of_filter in He as [Hne He].
  apply list_elem_of_fmap in He as (piece & -> & Hpiece).
  split_and!; [done|apply strip_stripped|].
  intros Hc%strip_elem_of. by apply split_no_sep in Hpiece.
Qed.

(** X4: clean entries written with pipes between them are read back as they
    are: the loop over the local nodes undoes the joining. *)
Theorem local_entries_round_trip (entries : list str) :
  Forall clean_entry entries →
  Subcon.local_loop (split (ch "|") (join [ch "|"] entries)) [] = entries.
Proof.
  intros Hclean. rewrite local_loop_spec. cbn [app].
  destruct entries as [|e entries]; [done|].
  rewrite split_join; [|done|].
  - induction Hclean as [|x l (Hne & Hs & _) _ IH]; [done|].
    cbn [fmap list_fmap]. rewrite (stripped_strip _ Hs).
    rewrite filter_cons_True by done. f_equal. apply IH.
  - intros piece Hp. rewrite Forall_forall in Hclean.
    by destruct (Hclean _ Hp) as (_ & _ & ?).
Qed.

Lemma local_entries_round_trip_witness :
  Forall clean_entry [py "ss://a"; py "vmess://b c"]
  ∧ Subcon.local_loop
      (split (ch "|") (join [ch "|"] [py "ss://a"; py "vmess://b c"])) []
    = [py "ss://a"; py "vmess://b c"].
Proof.
  assert (Hclean : Forall clean_entry [py "ss://a"; py "vmess://b c"]).
  { repeat constructor; try done; apply has_char_false; by vm_compute. }
  split; [exact Hclean|]. exact (local_entries_round_trip _ Hclean).
Defined.

Section MergeMore.
Context `{Env}.

Lemma stopped_net (airport_url cookie : str) (st : state) :
  net (Subcon.get_subscription_from_airport airport_url cookie st).2
  = (requests_get airport_url (Subcon.headers cookie) (net st)).2.
Proof.
  rewrite stopped_normal_form. cbv zeta.
  destruct (requests_get _ _ _) as [[response|e] w]; [|done].
  destruct ((400 <=? status_code response) && _)%N; [done|].
  by destruct (BeautifulSoup _).
Qed.

Lemma airport_loop_net (airports : list (gmap string (list N)))
    (all_nodes : list str) (st : state) :
  net (Subcon.airport_loop airports all_nodes st).2
  = dashboard_fetches airports (net st).
Proof.
  revert st; induction airports as [|airport rest IH]; intros st; [done|].
  cbn [Subcon.airport_loop]. unfold dashboard_fetches. cbn [foldl].
  destruct (Subcon.falsy _ || Subcon.falsy _).
  - unfold mbind, M_bind, logger. rewrite IH. done.
  - unfold mbind at 1 2 3, M_bind at 1 2 3, logger at 1 2.
    match goal with
    | |- context [Subcon.get_subscription_from_airport ?u ?c ?s] =>
        pose proof (stopped_returns_none u c s) as Hnone;
        pose proof (stopped_net u c s) as Hnet;
        destruct (Subcon.get_subscription_from_airport u c s) as [r st']
    end.
    cbn [fst snd net] in *. subst r. cbn [truthy_opt negb].
    unfold mbind, M_bind, logger. rewrite IH. cbn [net]. by rewrite Hnet.
Qed.

(** X5: for airports that are objects with string fields, whatever they hold
    and whatever the world does, [merge_all_nodes] returns (it does not
    raise) the local entries joined by newlines: no line of any airport is in
    its output. *)
Theorem merge_output_is_local_nodes (airports : list (gmap string (list N)))
    (local_nodes : str) (st : state) :
  (Subcon.merge_all_nodes airports local_nodes st).1 =
    Ret (join [10%N] (Subcon.local_loop (split (ch "|") local_nodes) [])).
Proof.
  rewrite merge_all_nodes_local_only. unfold local_entries.
  by rewrite local_loop_spec.
Qed.

(** X6: for airports that are objects with string fields, the network sees
    of [merge_all_nodes] one dashboard request for each airport that has a
    URL and a cookie, in the order of the list, and nothing else: an airport
    without URL or cookie is not requested, and no subscription fetch is
    part of it. *)
Theorem merge_network_effect (airports : list (gmap string (list N)))
    (local_nodes : str) (st : state) :
  net (Subcon.merge_all_nodes airports local_nodes st).2
  = dashboard_fetches airports (net st).
Proof.
  unfold Subcon.merge_all_nodes.
  destruct (truthy local_nodes).
  - unfold mbind, M_bind, logger, mret at 1, M_ret at 1.
    match goal with
    | |- context [Subcon.airport_loop airports ?a ?s] =>
        pose proof (airport_loop_net airports a s) as Hnet;
        destruct (Subcon.airport_loop airports a s) as [[r|e] st']
    end; cbn [snd net] in *; done.
  - unfold mbind, M_bind, mret at 1, M_ret at 1.
    match goal with
    | |- context [Subcon.airport_loop airports ?a ?s] =>
        pose proof (airport_loop_net airports a s) as Hnet;
        destruct (Subcon.airport_loop airports a s) as [[r|e] st']
    end; cbn [snd net] in *; done.
Qed.

End MergeMore.

(** ** splitlines and the node lines *)

Lemma splitlines_from_one_line (l cur rest : str) :
  one_line l = true →
  splitlines_from cur (l ++ rest) = splitlines_from (reverse l ++ cur) rest.
Proof.
  revert cur. induction l as [|c l IH]; intros cur; [done|].
  cbn [one_line forallb app]. intros [Hc Hl]%andb_true_iff.
  apply negb_true_iff in Hc. cbn [splitlines_from]. rewrite Hc.
  rewrite IH by done. by rewrite reverse_cons, <- app_assoc.
Qed.

Lemma splitlines_from_newline (cur rest : str) :
  splitlines_from cur (10%N :: rest) = reverse cur :: splitlines_from [] rest.
Proof. by destruct rest. Qed.

Lemma splitlines_join (ls : list str) :
  Forall (λ l, l ≠ [] ∧ one_line l = true) ls →
  splitlines (join [10%N] ls) = ls.
Proof.
  unfold splitlines. induction 1 as [|l ls [Hne Hl] Hls IH]; [done|].
  destruct ls as [|l' ls].
  - cbn [join]. rewrite <- (app_nil_r l) at 1.
    rewrite splitlines_from_one_line by done. rewrite app_nil_r.
    cbn [splitlines_from]. destruct (reverse l) eqn:Hr.
    + apply (f_equal reverse) in Hr. rewrite reverse_involutive in Hr. done.
    + by rewrite <- Hr, reverse_involutive.
  - change (join [10%N] (l :: l' :: ls)) with (l ++ 10%N :: join [10%N] (l' :: ls)).
    rewrite splitlines_from_one_line by done.
    rewrite splitlines_from_newline, app_nil_r, reverse_involutive. by rewrite IH.
Qed.

Lemma splitlines_from_lines (s : str) :
  ∀ cur : str,
    one_line cur = true →
    Forall (λ l, one_line l = true) (splitlines_from cur s).
Proof.
  induction s as [s IH] using (induction_ltof1 _ length). unfold ltof in IH.
  assert (Hrev : ∀ cur, one_line cur = true → one_line (reverse cur) = true).
  { intros cur Hc. unfold one_line in *. rewrite forallb_forall in *.
    intros x Hx. apply Hc. apply list_elem_of_In. apply list_elem_of_In in Hx.
    by apply (proj1 (elem_of_reverse _ _)). }
  intros cur Hcur. destruct s as [|c s]; cbn [splitlines_from].
  - destruct cur; [done|]. repeat constructor. by apply Hrev.
  - destruct (is_linebreak c) eqn:Hc.
    + constructor; [by apply Hrev|].
      destruct s as [|c' s'']; [by apply IH; [simpl; lia|]|].
      destruct ((c =? 13) && (c' =? 10))%N; apply IH; simpl; done || lia.
    + apply IH; [simpl; lia|]. cbn [one_line forallb]. by rewrite Hc.
Qed.

Lemma strip_one_line (l : str) : one_line l = true → one_line (strip l) = true.
Proof.
  unfold one_line. rewrite !forallb_forall. intros Hl x Hx. apply Hl.
  apply list_elem_of_In. apply list_elem_of_In in Hx. by apply strip_elem_of.
Qed.

Lemma node_lines_clean (lines : list str) :
  Forall (λ l, one_line l = true) lines →
  Forall (λ l, l ≠ [] ∧ stripped l = true ∧ one_line l = true)
         (Subcon.node_lines lines).
Proof.
  induction 1 as [|l lines Hl Hlines IH]; cbn [Subcon.node_lines]; [done|].
  destruct (truthy (strip l)) eqn:Ht; [|done].
  constructor; [|done]. split_and!.
  - by apply truthy_true.
  - apply strip_stripped.
  - by apply strip_one_line.
Qed.

Lemma node_lines_id (lines : list str) :
  Forall (λ l, l ≠ [] ∧ stripped l = true ∧ one_line l = true) lines →
  Subcon.node_lines lines = lines.
Proof.
  induction 1 as [|l lines (Hne & Hs & _) Hlines IH]; cbn [Subcon.node_lines]; [done|].
  rewrite (stripped_strip _ Hs). apply truthy_true in Hne. by rewrite Hne, IH.
Qed.

(** X7: the node lines [merge_all_nodes] reads from a content, joined by
    newlines as it joins them, are read back as the same node lines: every
    node line is not empty, stripped and free of line boundaries, and
    splitting undoes the joining. *)
Theorem node_lines_round_trip (content : str) :
  Forall (λ l, l ≠ [] ∧ stripped l = true ∧ one_line l = true)
         (Subcon.node_lines (splitlines content))
  ∧ Subcon.node_lines
      (splitlines (join [10%N] (Subcon.node_lines (splitlines content))))
    = Subcon.node_lines (splitlines content).
Proof.
  assert (Hclean : Forall (λ l, l ≠ [] ∧ stripped l = true ∧ one_line l = true)
                          (Subcon.node_lines (splitlines content))).
  { apply node_lines_clean. by apply splitlines_from_lines. }
  split; [done|].
  rewrite splitlines_join.
  - by apply node_lines_id.
  - eapply Forall_impl; [done|]. by intros l (? & _ & ?).
Qed.

(** ** search: what it returns is in the language, and it misses nothing *)

Lemma match_at_lang (r : regex) (s : str) (m : rematch) :
  match_at r s = Some m → lang r (group0 m) ∧ s = group0 m ++ after m.
Proof.
  unfold match_at. intros Hm.
  apply rmatch_sound in Hm as (a & b & g' & -> & Ha & Hm).
  rewrite take_app_suffix in Hm. injection Hm as <-. done.
Qed.

Lemma match_at_complete (r : regex) (a post : str) :
  lang r a → is_Some (match_at r (a ++ post)).
Proof. intros Ha. unfold match_at. by apply rmatch_complete. Qed.

Lemma search_lang (r : regex) (s : str) (m : rematch) :
  search r s = Some m →
  lang r (group0 m) ∧ ∃ pre, s = pre ++ group0 m ++ after m.
Proof.
  intros (p1 & p2 & -> & Hm & _)%search_some_inv.
  apply match_at_lang in Hm as [Hl ->]. split; [done|]. by exists p1.
Qed.

Lemma search_complete (r : regex) (pre a post : str) :
  lang r a → is_Some (search r (pre ++ a ++ post)).
Proof.
  intros Ha. destruct (search r _) as [m|] eqn:Hs; [by eexists|].
  rewrite search_none in Hs. specialize (Hs pre (a ++ post) eq_refl).
  destruct (match_at_complete r a post Ha) as [m Hm]. congruence.
Qed.

(** ** Method 1: link URLs in the page text *)

Lemma lang_pattern1 (a : str) : lang GetSuburl.pattern1 a ↔ link_url a.
Proof.
  unfold GetSuburl.pattern1. cbn [seq_of foldr lang]. unfold link_url. split.
  - intros (a1 & r1 & -> & -> & s & r2 & -> & Hs & a3 & r3 & -> & -> &
            host & r4 & -> & [Hne Hhost] & kw & r5 & -> & Hkw &
            tail & r6 & -> & Htail & ->).
    rewrite app_nil_r.
    assert (Hkw' : kw = py "/link/" ∨ kw = py "/subscribe" ∨ kw = py "/sub")
      by naive_solver.
    destruct Hs as [-> | ->].
    + exists (py "http"), host, kw, tail. split_and!; auto.
    + exists (py "https"), host, kw, tail. split_and!; auto.
  - intros (scheme & host & kw & tail & Hs & Hne & Hhost & Hkw & Htail & ->).
    assert (Hkw' : kw = py "/link/" ∨ (kw = py "/subscribe" ∨ kw = py "/sub"))
      by naive_solver.
    destruct Hs as [-> | ->].
    + exists (py "http"), (py "://" ++ host ++ kw ++ tail). split_and!; [done..|].
      exists [], (py "://" ++ host ++ kw ++ tail). split_and!; [done|by left|].
      exists (py "://"), (host ++ kw ++ tail). split_and!; [done..|].
      exists host, (kw ++ tail). split_and!; [done..|].
      exists kw, tail. split_and!; [done..|].
      exists tail, []. by rewrite app_nil_r.
    + exists (py "http"), (py "s://" ++ host ++ kw ++ tail). split_and!; [done..|].
      exists (py "s"), (py "://" ++ host ++ kw ++ tail). split_and!; [done|by right|].
      exists (py "://"), (host ++ kw ++ tail). split_and!; [done..|].
      exists host, (kw ++ tail). split_and!; [done..|].
      exists kw, tail. split_and!; [done..|].
      exists tail, []. by rewrite app_nil_r.
Qed.

Lemma method1_sound (html u : str) :
  GetSuburl.method1 html = Some u →
  link_url u ∧ ∃ pre post, html = pre ++ u ++ post.
Proof.
  unfold GetSuburl.method1. destruct (search _ _) as [m|] eqn:Hs; [|done].
  intros [= <-]. apply search_lang in Hs as [Hl [pre Hpre]].
  split; [by apply lang_pattern1|]. by exists pre, (after m).
Qed.

Lemma method1_complete (pre a post : str) :
  link_url a → is_Some (GetSuburl.method1 (pre ++ a ++ post)).
Proof.
  intros Ha%lang_pattern1. unfold GetSuburl.method1.
  destruct (search_complete _ pre a post Ha) as [m ->]. by eexists.
Qed.

(** X8: on every page whose text holds a link URL (http or https, ://, one
    or more URL characters, then /link/, /subscribe or /sub, then URL
    characters), [extract_subscription_url] returns a link URL that stands in
    the page text, and it leaves the state as it is: nothing is logged and
    no request is made. *)
Theorem link_url_found_in_text `{Env} (pre a post base_url : str) (st : state) :
  link_url a →
  ∃ u pre' post',
    GetSuburl.extract_subscription_url (pre ++ a ++ post) base_url st
      = (Ret (Some u), st)
    ∧ link_url u
    ∧ pre ++ a ++ post = pre' ++ u ++ post'.
Proof.
  intros Ha. destruct (method1_complete pre a post Ha) as [u Hu].
  destruct (method1_sound _ _ Hu) as (Hlu & pre' & post' & Heq).
  exists u, pre', post'. split_and!; [|done..].
  unfold GetSuburl.extract_subscription_url. by rewrite Hu.
Qed.

Lemma link_url_found_in_text_witness :
  link_url (py "https://host.example/link/AbC123?clash=1")
  ∧ ∃ u pre' post',
      @GetSuburl.extract_subscription_url Demo.env
        (py "<p>copy: " ++ py "https://host.example/link/AbC123?clash=1" ++ py " </p>")
        Demo.url_b Demo.st0
        = (Ret (Some u), Demo.st0)
      ∧ link_url u
      ∧ py "<p>copy: " ++ py "https://host.example/link/AbC123?clash=1" ++ py " </p>"
        = pre' ++ u ++ post'.
Proof.
  assert (Ha : link_url (py "https://host.example/link/AbC123?clash=1")).
  { exists (py "https"), (py "host.example"), (py "/link/"), (py "AbC123?clash=1").
    split_and!; [by right|done|by vm_compute|by left|by vm_compute|done]. }
  split; [exact Ha|].
  exact (@link_url_found_in_text Demo.env _ _ _ _ _ Ha).
Defined.

(** ** What the extractor returns *)

Lemma extract_url_re_inv (html sub_pattern u : str) :
  GetSuburl.extract_url_re html sub_pattern = Some u →
  mu_url sub_pattern u ∧ ∃ pre post, html = pre ++ value_attr u ++ post.
Proof.
  unfold GetSuburl.extract_url_re.
  destruct (search _ _) as [m|] eqn:Hs; [|done]. intros Hg.
  apply search_some_inv in Hs as (p1 & p2 & -> & Hm & _).
  apply match_at_url_re_inv in Hm as (u' & Hu' & -> & Hg').
  rewrite Hg in Hg'. injection Hg' as ->. split; [done|]. by exists p1, (after m).
Qed.

(** X9: for a sub_pattern of ASCII letters, digits and underscores (text the
    pattern reads as itself, as the caller's clash is), whatever
    [extract_url_re] returns is an http(s) URL that ends in ?mu= and the
    sub_pattern and stands on the page inside the double quotes of a value
    attribute; it returns nothing else. *)
Theorem extract_url_re_sound (html sub_pattern u : str) :
  plain_pattern sub_pattern = true →
  GetSuburl.extract_url_re html sub_pattern = Some u →
  mu_url sub_pattern u ∧ ∃ pre post, html = pre ++ value_attr u ++ post.
Proof.
  intros _. apply extract_url_re_inv.
Qed.

Lemma extract_url_re_sound_witness :
  plain_pattern (py "clash") = true
  ∧ GetSuburl.extract_url_re
      (py "<input " ++ value_attr (py "http://h/s?mu=clash") ++ py ">") (py "clash")
    = Some (py "http://h/s?mu=clash")
  ∧ mu_url (py "clash") (py "http://h/s?mu=clash")
  ∧ ∃ pre post,
      py "<input " ++ value_attr (py "http://h/s?mu=clash") ++ py ">"
      = pre ++ value_attr (py "http://h/s?mu=clash") ++ post.
Proof.
  assert (Hp : plain_pattern (py "clash") = true) by by vm_compute.
  assert (Hre : GetSuburl.extract_url_re
                  (py "<input " ++ value_attr (py "http://h/s?mu=clash") ++ py ">")
                  (py "clash") = Some (py "http://h/s?mu=clash")) by by vm_compute.
  split; [exact Hp|]. split; [exact Hre|].
  exact (extract_url_re_sound _ _ _ Hp Hre).
Defined.

Lemma scheme_http (scheme rest : str) :
  scheme = py "http" ∨ scheme = py "https" →
  startswith (py "http") (scheme ++ rest) = true.
Proof.
  intros [-> | ->]; [apply startswith_app|].
  change (py "https" ++ rest) with (py "http" ++ py "s" ++ rest).
  apply startswith_app.
Qed.

Lemma mu_url_http (sub_pattern u : str) :
  mu_url sub_pattern u → startswith (py "http") u = true.
Proof. intros (scheme & body & Hs & _ & _ & ->). by apply scheme_http. Qed.

Lemma abs_url_http (u : str) : abs_url u → startswith (py "http") u = true.
Proof. intros (scheme & body & Hs & _ & _ & ->). by apply scheme_http. Qed.

Lemma link_url_http (u : str) : link_url u → startswith (py "http") u = true.
Proof.
  intros (scheme & host & kw & tail & Hs & _ & _ & _ & _ & ->). by apply scheme_http.
Qed.

Section Returned.
Context `{Env}.

Lemma link_loop_http (base_url : str) (hrefs : list str) (u : str) :
  GetSuburl.link_loop base_url hrefs = Ret (Some u) →
  startswith (py "http") u = true.
Proof.
  induction hrefs as [|href rest IH]; cbn [GetSuburl.link_loop]; [done|].
  destruct (has_keyword href); [|done].
  destruct (if startswith (py "/") href then _ else _) as [t|e]; [|done].
  cbn [mbind result_bind]. destruct (startswith (py "http") t) eqn:Ht; [|done].
  by intros [= <-].
Qed.

Lemma method2_http (html u : str) :
  GetSuburl.method2 html = Ret (Some u) → startswith (py "http") u = true.
Proof.
  rewrite method2_find. intros [= Hf].
  apply find_some in Hf as [Hin _]. apply list_elem_of_In in Hin.
  apply abs_hrefs_sound in Hin as [Hu _]. by apply abs_url_http.
Qed.

Lemma method3_http (html base_url : str) (st : state) (u : str) :
  (GetSuburl.method3 html base_url st).1 = Ret (Some u) →
  startswith (py "http") u = true.
Proof.
  unfold GetSuburl.method3, try_except, lift.
  destruct (BeautifulSoup html) as [sp|e] eqn:Hbs; cbn [mbind result_bind].
  - destruct (GetSuburl.link_loop _ _) as [r|e] eqn:Hl; cbn [fst].
    + intros [= ->]. by eapply link_loop_http.
    + unfold mbind, M_bind, logger, mret, M_ret. done.
  - unfold mbind, M_bind, logger, mret, M_ret. done.
Qed.

Lemma method3_net (html base_url : str) (st : state) :
  net (GetSuburl.method3 html base_url st).2 = net st.
Proof.
  unfold GetSuburl.method3, try_except, lift.
  destruct (BeautifulSoup html ≫= _) as [r|e]; [done|].
  unfold mbind, M_bind, logger, mret, M_ret. done.
Qed.

Lemma extract_subscription_url_http (html base_url : str) (st : state) (u : str) :
  (GetSuburl.extract_subscription_url html base_url st).1 = Ret (Some u) →
  startswith (py "http") u = true.
Proof.
  unfold GetSuburl.extract_subscription_url.
  destruct (GetSuburl.method1 html) as [u1|] eqn:H1.
  - intros [= ->]. apply method1_sound in H1 as [Hl _]. by apply link_url_http.
  - unfold mbind, M_bind, lift.
    destruct (GetSuburl.method2 html) as [[u2|]|e] eqn:H2; cbn [fst].
    + intros [= ->]. by apply method2_http in H2.
    + apply method3_http.
    + done.
Qed.

Lemma extract_subscription_url_net (html base_url : str) (st : state) :
  net (GetSuburl.extract_subscription_url html base_url st).2 = net st.
Proof.
  unfold GetSuburl.extract_subscription_url.
  destruct (GetSuburl.method1 html); [done|].
  unfold mbind, M_bind, lift.
  destruct (GetSuburl.method2 html) as [[u2|]|e]; [done| |done].
  apply method3_net.
Qed.

(** The outcome of [get_subscription_from_airport] of get_suburl.py, read off
    the request's outcome. *)
Lemma airport_outcome (airport_url user_agent cookie : str) (st : state) :
  ∃ r,
    (GetSuburl.get_subscription_from_airport airport_url user_agent cookie st).1 = Ret r
    ∧ net (GetSuburl.get_subscription_from_airport airport_url user_agent cookie st).2
      = (curl_cffi_get airport_url (GetSuburl.headers user_agent) (cookie_spec cookie)
                       (net st)).2
    ∧ (∀ u, r = Some u → startswith (py "http") u = true)
    ∧ (∀ u, r = Some u →
         ∃ resp, (curl_cffi_get airport_url (GetSuburl.headers user_agent)
                                (cookie_spec cookie) (net st)).1 = Ret resp
                 ∧ status_code resp = 200%N).
Proof.
  unfold GetSuburl.get_subscription_from_airport.
  rewrite parse_cookie_string_eq.
  unfold try_except, mbind, M_bind, logger, lift, http. cbn [net log].
  destruct (curl_cffi_get _ _ _ _) as [[resp|e] w] eqn:Hget; cbn [net log fst snd].
  - destruct (status_code resp =? 200)%N eqn:Hstatus; cbn [net log].
    + apply N.eqb_eq in Hstatus.
      destruct (GetSuburl.extract_url_re (text resp) (py "clash")) as [u1|] eqn:Hre.
      * destruct (truthy_opt (Some u1)) eqn:Ht; cbn [net log].
        -- unfold mret, M_ret. exists (Some u1). split_and!; [done..| |].
           ++ intros u [= <-]. apply extract_url_re_inv in Hre as [Hu _].
              by eapply mu_url_http.
           ++ intros u _. by exists resp.
        -- apply extract_url_re_inv in Hre as [Hu%mu_url_nonempty _].
           by destruct u1.
      * cbn [truthy_opt net log].
        match goal with
        | |- context [GetSuburl.extract_subscription_url ?h ?b ?s] =>
            pose proof (extract_subscription_url_returns h b s) as (r' & st' & Hr);
            pose proof (extract_subscription_url_http h b s) as Hhttp;
            pose proof (extract_subscription_url_net h b s) as Hnet;
            rewrite Hr in *
        end.
        cbn [fst snd net] in *.
        destruct (truthy_opt r') eqn:Ht; unfold mret, M_ret; cbn [fst snd net].
        -- exists r'. split_and!; [done..| |].
           ++ intros u ->. by apply Hhttp.
           ++ intros u _. by exists resp.
        -- exists None. split_and!; done.
    + unfold mret, M_ret. exists None. split_and!; done.
  - unfold mret, M_ret. exists None. split_and!; done.
Qed.

End Returned.

(** X10: a link returned by [extract_subscription_url], and so a link
    returned by [get_subscription_from_airport] of get_suburl.py, always
    starts with the four characters http.  No more than this prefix holds:
    an anchor's href such as httpsub.html is returned as it stands. *)
Theorem returned_link_starts_with_http `{Env} :
  (∀ (html base_url : str) (st : state) (u : str),
     (GetSuburl.extract_subscription_url html base_url st).1 = Ret (Some u) →
     startswith (py "http") u = true)
  ∧ (∀ (airport_url user_agent cookie : str) (st : state) (u : str),
       (GetSuburl.get_subscription_from_airport airport_url user_agent cookie st).1
         = Ret (Some u) →
       startswith (py "http") u = true).
Proof.
  split.
  - apply extract_subscription_url_http.
  - intros airport_url user_agent cookie st u Hu.
    destruct (airport_outcome airport_url user_agent cookie st)
      as (r & Hr & _ & Hhttp & _).
    rewrite Hr in Hu. injection Hu as ->. by apply Hhttp.
Qed.

Lemma returned_link_starts_with_http_witness :
  (@GetSuburl.get_subscription_from_airport Demo.env Demo.url_b [] (py "sid=2")
     Demo.st0).1 = Ret (Some Demo.sub_b)
  ∧ startswith (py "http") Demo.sub_b = true.
Proof.
  assert (Hr : (@GetSuburl.get_subscription_from_airport Demo.env Demo.url_b []
                  (py "sid=2") Demo.st0).1 = Ret (Some Demo.sub_b)) by by vm_compute.
  split; [exact Hr|].
  exact (proj2 (@returned_link_starts_with_http Demo.env) _ _ _ _ _ Hr).
Defined.

(** X11: [get_subscription_from_airport] of get_suburl.py never raises,
    whatever the request, the parser and [urljoin] do; it makes exactly the
    one request to the airport; and it returns a link only when that request
    returned a response with status 200. *)
Theorem airport_never_raises `{Env} (airport_url user_agent cookie : str)
    (st : state) :
  ∃ r,
    (GetSuburl.get_subscription_from_airport airport_url user_agent cookie st).1 = Ret r
    ∧ net (GetSuburl.get_subscription_from_airport airport_url user_agent cookie st).2
      = (curl_cffi_get airport_url (GetSuburl.headers user_agent) (cookie_spec cookie)
                       (net st)).2
    ∧ (∀ u, r = Some u →
         ∃ resp, (curl_cffi_get airport_url (GetSuburl.headers user_agent)
                                (cookie_spec cookie) (net st)).1 = Ret resp
                 ∧ status_code resp = 200%N).
Proof.
  destruct (airport_outcome airport_url user_agent cookie st)
    as (r & Hr & Hnet & _ & Hok).
  by exists r.
Qed.

(** ** The loop of process_airports *)

(** X12: the loop of [process_airports] of get_suburl.py over the configured
    airports never raises, whatever the network and the parser do, and it
    requests exactly the airports that are active (or say nothing about it)
    and have a URL and a cookie, each once, in the order of the list: an
    inactive or incomplete airport is never requested, and a failing airport
    does not stop the ones after it. *)
Theorem process_airports_requests `{Env} (airports : list GetSuburl.airport_config)
    (st : state) :
  (GetSuburl.process_airports_loop airports st).1 = Ret ()
  ∧ net (GetSuburl.process_airports_loop airports st).2
    = airport_requests airports (net st).
Proof.
  revert st; induction airports as [|airport rest IH]; intros st; [done|].
  cbn [GetSuburl.process_airports_loop]. unfold airport_requests. cbn [foldl].
  destruct (default true (GetSuburl.active airport)); cbn [negb andb].
  - destruct (truthy_opt (GetSuburl.url airport)); cbn [negb andb orb].
    + destruct (truthy (default [] (GetSuburl.cookie airport))); cbn [negb].
      * split.
        all: unfold try_except, mbind, M_bind, logger at 1; cbn [net log].
        all: match goal with
             | |- context [GetSuburl.get_subscription_from_airport ?u ?a ?c ?s] =>
                 destruct (airport_outcome u a c s) as (r & Hr & Hnet & _);
                 destruct (GetSuburl.get_subscription_from_airport u a c s)
                   as [res st1]
             end.
        all: cbn [fst snd net] in Hr, Hnet; subst res.
        all: destruct (truthy_opt r); unfold logger; cbn [net log].
        1,2: apply IH.
        all: rewrite (proj2 (IH _)); cbn [net]; by rewrite Hnet.
      * unfold mbind, M_bind, logger. apply IH.
    + unfold mbind, M_bind, logger. apply IH.
  - unfold mbind, M_bind, logger. apply IH.
Qed.

(** ** The query string of generate_subconvert_url *)

Lemma hex_digit_safe (n : N) : (n < 16)%N → always_safe (hex_digit n) = true.
Proof.
  intros Hn. unfold hex_digit, always_safe. ch_eval.
  destruct (n <? 10)%N eqn:E; bool_lia.
Qed.

Lemma quote_byte_quoted (b : N) :
  is_byte b = true → forallb quoted_char (quote_byte b) = true.
Proof.
  intros Hb. unfold quote_byte.
  destruct (b =? 32)%N; [done|].
  destruct (always_safe b) eqn:Hs.
  - cbn [forallb]. unfold quoted_char. by rewrite Hs.
  - cbn [forallb]. unfold quoted_char at 2 3.
    rewrite !hex_digit_safe by bool_lia. done.
Qed.

Lemma quoted_bytes_quoted (bs : bytes) :
  forallb is_byte bs = true →
  forallb quoted_char (mjoin (quote_byte <$> bs)) = true.
Proof.
  induction bs as [|b bs IH]; [done|]. cbn [forallb].
  intros [Hb Hbs]%andb_true_iff.
  change (mjoin (quote_byte <$> b :: bs))
    with (quote_byte b ++ mjoin (quote_byte <$> bs)).
  by rewrite forallb_app, quote_byte_quoted, IH.
Qed.

Lemma quoted_no_char (c : N) (s : str) :
  quoted_char c = false → forallb quoted_char s = true → c ∉ s.
Proof.
  intros Hc Hs Hin. rewrite forallb_forall in Hs.
  apply list_elem_of_In, Hs in Hin. congruence.
Qed.

Lemma quoted_query (s : str) :
  forallb quoted_char s = true → forallb query_char s = true.
Proof.
  rewrite !forallb_forall. intros Hs c Hc. unfold query_char.
  by rewrite (Hs c Hc).
Qed.

Lemma parse_query_of (pairs : list (str * str)) :
  pairs ≠ [] →
  Forall (λ kv, forallb quoted_char kv.1 = true ∧ forallb quoted_char kv.2 = true)
         pairs →
  parse_query (query_of pairs) = (λ kv, [kv.1; kv.2]) <$> pairs.
Proof.
  intros Hne Hq. unfold parse_query, query_of.
  change (py "&") with [ch "&"]. rewrite split_join.
  - rewrite <- list_fmap_compose. apply Forall_fmap_ext.
    eapply Forall_impl; [exact Hq|]. intros [k v] [Hk Hv]. cbn [fst snd compose].
    change (k ++ py "=" ++ v) with (k ++ ch "=" :: v).
    rewrite split_app_sep by (by apply (quoted_no_char _ k)).
    by rewrite split_one by (by apply (quoted_no_char _ v)).
  - by destruct pairs.
  - intros piece ([k v] & -> & Hin)%list_elem_of_fmap.
    rewrite Forall_forall in Hq. destruct (Hq _ Hin) as [Hk Hv]. cbn [fst snd] in *.
    rewrite !not_elem_of_app. split_and!.
    + by apply (quoted_no_char _ k).
    + by apply has_char_false.
    + by apply (quoted_no_char _ v).
Qed.

Lemma query_pairs_quoted (target url_value : str) :
  forallb quoted_char target = true →
  forallb quoted_char url_value = true →
  Forall (λ kv, forallb quoted_char kv.1 = true ∧ forallb quoted_char kv.2 = true)
         (query_pairs target url_value).
Proof.
  intros Ht Hu. unfold query_pairs.
  repeat (apply Forall_cons; split; [split; first [assumption | by vm_compute]|]).
  apply Forall_nil_2.
Qed.

Lemma query_of_chars (pairs : list (str * str)) :
  Forall (λ kv, forallb quoted_char kv.1 = true ∧ forallb quoted_char kv.2 = true)
         pairs →
  forallb query_char (query_of pairs) = true.
Proof.
  unfold query_of. induction 1 as [|[k v] rest [Hk Hv] Hrest IH]; [done|].
  cbn [fst snd] in *.
  destruct rest as [|kv rest].
  - cbn [fmap list_fmap join fst snd]. rewrite !forallb_app.
    by rewrite (quoted_query k), (quoted_query v).
  - change (forallb query_char
              ((k ++ py "=" ++ v) ++ py "&" ++
               join (py "&") ((λ kv, kv.1 ++ py "=" ++ kv.2) <$> kv :: rest)) = true).
    rewrite !forallb_app. by rewrite (quoted_query k), (quoted_query v), IH.
Qed.

Section Query.
Context `{Env}.

(** Text with a surrogate in the format cannot be encoded either. *)
Lemma generate_subconvert_url_raises_format (m f : str) :
  forallb is_scalar m = true → forallb is_scalar f = false →
  Subcon.generate_subconvert_url m f = Raise UnicodeEncodeError.
Proof.
  intros Hm Hf. destruct (utf8_encode_scalars m Hm) as (bs & Hbs & Hbytes).
  unfold Subcon.generate_subconvert_url.
  rewrite Hbs. cbn [mbind result_bind].
  rewrite utf8_decode_ascii by apply b64encode_ascii.
  cbn [mbind result_bind]. unfold urlencode, Subcon.params.
  cbn [urlencode_items].
  assert (Hq : quote_plus f = Raise UnicodeEncodeError)
    by (unfold quote_plus; by rewrite (utf8_encode_not_scalars f Hf)).
  rewrite Hq. quote_lits. done.
Qed.

(** What a returned link is made of. *)
Lemma generate_subconvert_url_inv (m f u : str) :
  Subcon.generate_subconvert_url m f = Ret u →
  ∃ bs fb,
    utf8_encode m = Ret bs ∧ forallb is_byte bs = true
    ∧ utf8_encode f = Ret fb ∧ forallb is_byte fb = true
    ∧ u = SUBCONVERT_URL ++ py "?" ++
          query_of (query_pairs (mjoin (quote_byte <$> fb))
                                (mjoin (quote_byte <$> b64encode bs))).
Proof.
  intros Hu.
  destruct (forallb is_scalar m) eqn:Hm;
    [|by rewrite (generate_subconvert_url_raises m f Hm) in Hu].
  destruct (forallb is_scalar f) eqn:Hf;
    [|by rewrite (generate_subconvert_url_raises_format m f Hm Hf) in Hu].
  destruct (utf8_encode_scalars m Hm) as (bs & Hbs & Hbytes).
  destruct (utf8_encode_scalars f Hf) as (fb & Hfb & Hfbytes).
  exists bs, fb. split_and!; [done..|].
  rewrite (generate_subconvert_url_eq m f bs (mjoin (quote_byte <$> fb)) Hbs) in Hu
    by (unfold quote_plus; by rewrite Hfb).
  by injection Hu as <-.
Qed.

Lemma generate_subconvert_url_scalars (m f : str) :
  forallb is_scalar m = true → forallb is_scalar f = true →
  ∃ u, Subcon.generate_subconvert_url m f = Ret u.
Proof.
  intros Hm Hf.
  destruct (utf8_encode_scalars m Hm) as (bs & Hbs & _).
  destruct (utf8_encode_scalars f Hf) as (fb & Hfb & _).
  eexists. apply (generate_subconvert_url_eq m f bs (mjoin (quote_byte <$> fb)) Hbs).
  unfold quote_plus. by rewrite Hfb.
Qed.

Lemma quoted_pairs_of_bytes (bs fb : bytes) :
  forallb is_byte fb = true →
  Forall (λ kv, forallb quoted_char kv.1 = true ∧ forallb quoted_char kv.2 = true)
         (query_pairs (mjoin (quote_byte <$> fb))
                      (mjoin (quote_byte <$> b64encode bs))).
Proof.
  intros Hfb. apply query_pairs_quoted; apply quoted_bytes_quoted; [done|].
  apply is_ascii_byte, b64encode_ascii.
Qed.

End Query.

(** X13: [generate_subconvert_url] returns a link exactly when the merged
    text and the format are text of Unicode scalar values; on text with a
    lone surrogate (which the environment can hold) it raises
    UnicodeEncodeError, and it raises nothing else. *)
Theorem generate_subconvert_url_total_on_scalars `{Env} (m f : str) :
  if forallb is_scalar m && forallb is_scalar f
  then ∃ u, Subcon.generate_subconvert_url m f = Ret u
  else Subcon.generate_subconvert_url m f = Raise UnicodeEncodeError.
Proof.
  destruct (forallb is_scalar m) eqn:Hm; cbn [andb].
  - destruct (forallb is_scalar f) eqn:Hf.
    + by apply generate_subconvert_url_scalars.
    + by apply generate_subconvert_url_raises_format.
  - by apply generate_subconvert_url_raises.
Qed.

(** X14: a link returned by [generate_subconvert_url] is the base URL, a
    question mark and a query string of quoted characters, ampersands and
    equals signs only; split on the ampersand and then on the equals sign,
    the query gives back exactly the eleven keys of the parameter dict, each
    with its quoted value: nothing in the merged text or in the format can
    add, end or split a parameter. *)
Theorem query_string_parses_back `{Env} (m f u : str) :
  Subcon.generate_subconvert_url m f = Ret u →
  ∃ (q target url_value : str),
    u = SUBCONVERT_URL ++ py "?" ++ q
    ∧ forallb query_char q = true
    ∧ quote_plus f = Ret target
    ∧ (b ← utf8_encode m; quote_plus (b64encode b)) = Ret url_value
    ∧ parse_query q =
        [[py "target"; target];
         [py "url"; url_value];
         [py "insert"; py "false"];
         [py "config";
          py "https%3A%2F%2Fraw.githubusercontent.com%2FACL4SSR%2FACL4SSR%2Fmaster%2FClash%2Fconfig%2FACL4SSR_Online.ini"];
         [py "emoji"; py "true"];
         [py "list"; py "false"];
         [py "udp"; py "true"];
         [py "tfo"; py "false"];
         [py "scv"; py "false"];
         [py "fdn"; py "false"];
         [py "sort"; py "false"]].
Proof.
  intros (bs & fb & Hbs & Hbytes & Hfb & Hfbytes & ->)%generate_subconvert_url_inv.
  pose proof (quoted_pairs_of_bytes bs fb Hfbytes) as Hq.
  eexists _, (mjoin (quote_byte <$> fb)), (mjoin (quote_byte <$> b64encode bs)).
  split_and!; [done| | | |].
  - by apply query_of_chars.
  - unfold quote_plus. by rewrite Hfb.
  - rewrite Hbs. cbn [mbind result_bind].
    apply quote_plus_ascii, b64encode_ascii.
  - by rewrite parse_query_of.
Qed.

Lemma query_string_parses_back_witness :
  @Subcon.generate_subconvert_url Demo.env (py "ss://a b") (py "clash")
  = Ret (@SUBCONVERT_URL Demo.env ++ py "?" ++
         query_of (query_pairs (py "clash") (py "c3M6Ly9hIGI%3D")))
  ∧ ∃ (q target url_value : str),
      @SUBCONVERT_URL Demo.env ++ py "?" ++
        query_of (query_pairs (py "clash") (py "c3M6Ly9hIGI%3D"))
      = @SUBCONVERT_URL Demo.env ++ py "?" ++ q
      ∧ forallb query_char q = true
      ∧ quote_plus (py "clash") = Ret target
      ∧ (b ← utf8_encode (py "ss://a b"); quote_plus (b64encode b)) = Ret url_value
      ∧ parse_query q =
          [[py "target"; target];
           [py "url"; url_value];
           [py "insert"; py "false"];
           [py "config";
            py "https%3A%2F%2Fraw.githubusercontent.com%2FACL4SSR%2FACL4SSR%2Fmaster%2FClash%2Fconfig%2FACL4SSR_Online.ini"];
           [py "emoji"; py "true"];
           [py "list"; py "false"];
           [py "udp"; py "true"];
           [py "tfo"; py "false"];
           [py "scv"; py "false"];
           [py "fdn"; py "false"];
           [py "sort"; py "false"]].
Proof.
  assert (Hu : @Subcon.generate_subconvert_url Demo.env (py "ss://a b") (py "clash")
               = Ret (@SUBCONVERT_URL Demo.env ++ py "?" ++
                      query_of (query_pairs (py "clash") (py "c3M6Ly9hIGI%3D"))))
    by by vm_compute.
  split; [exact Hu|].
  exact (@query_string_parses_back Demo.env _ _ _ Hu).
Defined.

(** X15: [generate_subconvert_url] loses nothing: two calls that return the
    same link were made with the same merged text and the same format. *)
Theorem generate_subconvert_url_injective `{Env} (m f m' f' u : str) :
  Subcon.generate_subconvert_url m f = Ret u →
  Subcon.generate_subconvert_url m' f' = Ret u →
  m = m' ∧ f = f'.
Proof.
  intros (bs & fb & Hbs & Hbytes & Hfb & Hfbytes & ->)%generate_subconvert_url_inv.
  intros (bs' & fb' & Hbs' & Hbytes' & Hfb' & Hfbytes' & Hu)%generate_subconvert_url_inv.
  apply app_inv_head, app_inv_head in Hu.
  apply (f_equal parse_query) in Hu.
  rewrite !parse_query_of in Hu by (done || by apply quoted_pairs_of_bytes).
  injection Hu as Hf Hm.
  apply (f_equal unquote_plus_to_bytes) in Hf, Hm.
  rewrite !unquote_quote in Hf by done.
  rewrite !unquote_quote in Hm by apply is_ascii_byte, b64encode_ascii.
  apply (f_equal b64decode) in Hm.
  rewrite !b64decode_b64encode in Hm by done. injection Hm as ->. subst fb'.
  apply utf8_decode_encode in Hbs, Hbs', Hfb, Hfb'.
  split; congruence.
Qed.

Lemma generate_subconvert_url_injective_witness :
  @Subcon.generate_subconvert_url Demo.env (py "ss://a b") (py "clash")
  = Ret (@SUBCONVERT_URL Demo.env ++ py "?" ++
         query_of (query_pairs (py "clash") (py "c3M6Ly9hIGI%3D")))
  ∧ py "ss://a b" = py "ss://a b" ∧ py "clash" = py "clash".
Proof.
  assert (Hu : @Subcon.generate_subconvert_url Demo.env (py "ss://a b") (py "clash")
               = Ret (@SUBCONVERT_URL Demo.env ++ py "?" ++
                      query_of (query_pairs (py "clash") (py "c3M6Ly9hIGI%3D"))))
    by by vm_compute.
  split; [exact Hu|].
  exact (@generate_subconvert_url_injective Demo.env _ _ _ _ _ Hu Hu).
Defined.

(** ** main *)

Lemma converter_urls_app (l1 l2 : list event) :
  converter_urls (l1 ++ l2) = converter_urls l1 ++ converter_urls l2.
Proof. apply omap_app. Qed.

Section Main.
Context `{Env}.

Lemma stopped_full (airport_url cookie : str) (st : state) :
  ∃ new,
    Subcon.get_subscription_from_airport airport_url cookie st
    = (Ret None,
       State (requests_get airport_url (Subcon.headers cookie) (net st)).2
             (log st ++ new))
    ∧ converter_urls new = [].
Proof.
  rewrite stopped_normal_form. cbv zeta.
  destruct (requests_get _ _ _) as [[response|e] w]; cbn [snd].
  - destruct ((400 <=? status_code response) && _)%N; [by eexists|].
    destruct (BeautifulSoup _); by eexists.
  - by eexists.
Qed.

Lemma airport_loop_full (airports : list (gmap string (list N)))
    (all_nodes : list str) (st : state) :
  ∃ new,
    Subcon.airport_loop airports all_nodes st
    = (Ret all_nodes, State (dashboard_fetches airports (net st)) (log st ++ new))
    ∧ converter_urls new = [].
Proof.
  revert st; induction airports as [|airport rest IH]; intros st.
  - exists []. rewrite app_nil_r. by destruct st.
  - cbn [Subcon.airport_loop]. unfold dashboard_fetches. cbn [foldl].
    destruct (Subcon.falsy _ || Subcon.falsy _).
    + unfold mbind, M_bind, logger.
      match goal with |- context [Subcon.airport_loop rest all_nodes ?s] =>
        destruct (IH s) as (new & -> & Hnew) end.
      cbn [net log]. eexists. rewrite <- app_assoc. split; [done|].
      by rewrite converter_urls_app, Hnew.
    + unfold mbind at 1 2 3, M_bind at 1 2 3, logger at 1 2.
      match goal with
      | |- context [Subcon.get_subscription_from_airport ?u ?c ?s] =>
          destruct (stopped_full u c s) as (new1 & -> & Hnew1)
      end.
      cbn [truthy_opt negb net log]. unfold mbind, M_bind, logger.
      match goal with |- context [Subcon.airport_loop rest all_nodes ?s] =>
        destruct (IH s) as (new & -> & Hnew) end.
      cbn [net log]. eexists. rewrite <- !app_assoc. split; [done|].
      by rewrite !converter_urls_app, Hnew1, Hnew.
Qed.

Lemma merge_all_nodes_full (airports : list (gmap string (list N)))
    (local_nodes : str) (st : state) :
  ∃ new,
    Subcon.merge_all_nodes airports local_nodes st
    = (Ret (join [10%N] (Subcon.local_loop (split (ch "|") local_nodes) [])),
       State (dashboard_fetches airports (net st)) (log st ++ new))
    ∧ converter_urls new = [].
Proof.
  unfold Subcon.merge_all_nodes.
  destruct local_nodes as [|c s]; cbn [truthy].
  - unfold mbind, M_bind, mret at 1, M_ret at 1.
    destruct (airport_loop_full airports [] st) as (new & -> & Hnew).
    by exists new.
  - unfold mbind, M_bind, logger, mret at 1, M_ret at 1.
    match goal with |- context [Subcon.airport_loop airports ?a ?s] =>
      destruct (airport_loop_full airports a s) as (new & -> & Hnew) end.
    cbn [net log]. eexists. rewrite <- !app_assoc. split; [done|].
    by rewrite !converter_urls_app, Hnew.
Qed.

Lemma format_loop_full (fs : list (str * str)) (merged_content : str) (st : state) :
  forallb is_scalar merged_content = true →
  Forall (λ p, forallb is_scalar p.1 = true) fs →
  ∃ new,
    Subcon.format_loop fs merged_content st = (Ret (), State (net st) (log st ++ new))
    ∧ Forall2 (λ p r, r.1 = p.2
                      ∧ Subcon.generate_subconvert_url merged_content p.1 = Ret r.2)
              fs (converter_urls new).
Proof.
  intros Hm Hfs. revert st.
  induction Hfs as [|[fmt name] rest Hfmt Hrest IH]; intros st.
  - exists []. rewrite app_nil_r. split; [by destruct st|constructor].
  - cbn [Subcon.format_loop fst] in *.
    destruct (generate_subconvert_url_scalars merged_content fmt Hm Hfmt) as [u Hu].
    unfold mbind at 1, M_bind at 1, lift. rewrite Hu.
    unfold mbind at 1 2, M_bind at 1 2, logger. cbn [net log].
    match goal with |- context [Subcon.format_loop rest merged_content ?s] =>
      destruct (IH s) as (new & -> & Hnew) end.
    cbn [net log]. eexists. rewrite <- !app_assoc. split; [done|].
    rewrite converter_urls_app. cbn [app].
    change (converter_urls (?a :: ?b :: new)) with ((name, u) :: converter_urls new).
    by constructor.
Qed.

Lemma format_loop_raises (fmt name : str) (rest : list (str * str))
    (merged_content : str) (st : state) :
  forallb is_scalar merged_content = false →
  Subcon.format_loop ((fmt, name) :: rest) merged_content st
  = (Raise UnicodeEncodeError, st).
Proof.
  intros Hm. cbn [Subcon.format_loop]. unfold mbind, M_bind, lift.
  by rewrite (generate_subconvert_url_raises merged_content fmt Hm).
Qed.

Lemma local_loop_head (l : list str) (e : str) (es : list str) :
  Subcon.local_loop l [] = e :: es → truthy (join [10%N] (e :: es)) = true.
Proof.
  rewrite local_loop_spec. cbn [app]. intros Hl.
  assert (He : e ∈ filter (λ e, e ≠ []) (strip <$> l)) by (rewrite Hl; by left).
  apply list_elem_of_filter in He as [He _].
  destruct e as [|c e]; [done|]. by destruct es.
Qed.

Lemma formats_scalars : Forall (λ p : str * str, forallb is_scalar p.1 = true) Subcon.formats.
Proof. unfold Subcon.formats. repeat constructor. Qed.

End Main.

(** X16: what [main] of subcon.py does when the airports of the configuration
    are objects with string fields, for every such list, every LOCAL_NODES
    and every world.  It requests the dashboards of the airports that have a
    URL and a cookie and nothing else.  When no local node is left after the
    stripping it returns without a converter link.  Otherwise the merged text
    is the local nodes alone, and when it is text of Unicode scalar values
    [main] returns after logging exactly four converter links, in the order
    Clash, V2Ray, Surge, Surfboard, each the link [generate_subconvert_url]
    builds for the merged text and that format; when it holds a lone
    surrogate [main] raises UnicodeEncodeError, after the requests, without
    a link. *)
Theorem main_converter_links `{Env} (airports : list (gmap string (list N)))
    (LOCAL_NODES : str) (st : state) :
  ∃ (new : list event) (r : result unit),
    Subcon.main airports LOCAL_NODES st
    = (r, State (dashboard_fetches airports (net st)) (log st ++ new))
    ∧ match Subcon.local_loop (split (ch "|") (strip LOCAL_NODES)) [] with
      | [] => r = Ret () ∧ converter_urls new = []
      | entries =>
          if forallb is_scalar (join [10%N] entries) then
            r = Ret ()
            ∧ Forall2 (λ p l, l.1 = p.2
                              ∧ Subcon.generate_subconvert_url (join [10%N] entries) p.1
                                = Ret l.2)
                      Subcon.formats (converter_urls new)
          else r = Raise UnicodeEncodeError ∧ converter_urls new = []
      end.
Proof.
  unfold Subcon.main.
  unfold mbind at 1 2 3, M_bind at 1 2 3, logger at 1 2 3. cbn [net log].
  destruct (negb _ && negb (truthy LOCAL_NODES)) eqn:Hnone.
  - apply andb_true_iff in Hnone as [Ha Hl].
    destruct airports; [|done]. destruct LOCAL_NODES; [|done].
    unfold mbind, M_bind, logger, mret, M_ret. cbn [net log].
    eexists _, _. rewrite <- !app_assoc. split; [done|]. done.
  - clear Hnone. unfold mbind at 1 2, M_bind at 1 2, logger at 1. cbn [net log].
    match goal with |- context [Subcon.merge_all_nodes airports ?l ?s] =>
      destruct (merge_all_nodes_full airports l s) as (new1 & -> & Hnew1) end.
    cbn [net log].
    destruct (Subcon.local_loop _ []) as [|e es] eqn:Hentries.
    + cbn [join truthy negb]. unfold mbind, M_bind, logger, mret, M_ret.
      cbn [net log]. eexists _, _. rewrite <- !app_assoc. split; [done|].
      split; [done|]. by rewrite !converter_urls_app, Hnew1.
    + rewrite (local_loop_head _ _ _ Hentries). cbn [negb].
      unfold mbind at 1 2 3 4 5 6, M_bind at 1 2 3 4 5 6, logger at 1 2 3 4 5.
      cbn [net log].
      destruct (forallb is_scalar (join [10%N] (e :: es))) eqn:Hscalar.
      * match goal with |- context [Subcon.format_loop _ ?m ?s] =>
          destruct (format_loop_full Subcon.formats m s Hscalar formats_scalars)
            as (new2 & -> & Hnew2) end.
        unfold mbind, M_bind, logger, mret, M_ret. cbn [net log].
        eexists _, _. rewrite <- !app_assoc. split; [done|]. split; [done|].
        rewrite !converter_urls_app, Hnew1.
        repeat match goal with
               | |- context [converter_urls [?ev]] =>
                   change (converter_urls [ev]) with (@nil (str * str))
               end.
        cbn [app]. by rewrite app_nil_r.
      * unfold Subcon.formats. rewrite format_loop_raises by done.
        eexists _, _. rewrite <- !app_assoc. split; [done|]. split; [done|].
        by rewrite !converter_urls_app, Hnew1.
Qed.

(** ** Where a returned link comes from *)

Section Provenance.
Context `{Env}.

Lemma link_loop_sound (base_url : str) (hrefs : list str) (u : str) :
  GetSuburl.link_loop base_url hrefs = Ret (Some u) →
  ∃ href, href ∈ hrefs ∧ resolves_to base_url href = Ret (Some u).
Proof.
  induction hrefs as [|href rest IH]; cbn [GetSuburl.link_loop]; [done|].
  destruct (has_keyword href) eqn:Hk.
  - destruct (if startswith (py "/") href then _ else _) as [t|e] eqn:Ht; [|done].
    cbn [mbind result_bind]. destruct (startswith (py "http") t) eqn:Hhttp.
    + intros [= <-]. exists href. split; [by left|].
      unfold resolves_to. rewrite Hk, Ht. cbn [mbind result_bind]. by rewrite Hhttp.
    + intros (h & Hin & Hr)%IH. exists h. split; [by right|done].
  - intros (h & Hin & Hr)%IH. exists h. split; [by right|done].
Qed.

Lemma method3_sound (html base_url : str) (st : state) (u : str) :
  (GetSuburl.method3 html base_url st).1 = Ret (Some u) →
  ∃ sp href, BeautifulSoup html = Ret sp ∧ href ∈ find_all_a_href sp
             ∧ resolves_to base_url href = Ret (Some u).
Proof.
  unfold GetSuburl.method3, try_except, lift.
  destruct (BeautifulSoup html) as [sp|e] eqn:Hbs; cbn [mbind result_bind].
  - destruct (GetSuburl.link_loop _ _) as [r|e] eqn:Hl; cbn [fst].
    + intros [= ->]. apply link_loop_sound in Hl as (href & Hin & Hr).
      by exists sp, href.
    + unfold mbind, M_bind, logger, mret, M_ret. done.
  - unfold mbind, M_bind, logger, mret, M_ret. done.
Qed.

End Provenance.

(** X17: a link returned by [extract_subscription_url] comes from one of
    three places and from nowhere else: it is a link URL standing in the page
    text; or an absolute http(s) URL with a keyword that stands in the page
    text in a double-quoted href attribute; or what an anchor of the parsed
    page resolves to (its href with a keyword, joined to the base URL when it
    starts with a slash, and starting with http). *)
Theorem returned_link_provenance `{Env} (html base_url : str) (st : state) (u : str) :
  (GetSuburl.extract_subscription_url html base_url st).1 = Ret (Some u) →
  (link_url u ∧ ∃ pre post, html = pre ++ u ++ post)
  ∨ (abs_url u ∧ has_keyword u = true
     ∧ ∃ pre post, html = pre ++ href_attr u ++ post)
  ∨ (∃ sp href, BeautifulSoup html = Ret sp ∧ href ∈ find_all_a_href sp
                ∧ resolves_to base_url href = Ret (Some u)).
Proof.
  unfold GetSuburl.extract_subscription_url.
  destruct (GetSuburl.method1 html) as [u1|] eqn:H1.
  - intros [= ->]. left. by apply method1_sound.
  - unfold mbind, M_bind, lift. rewrite method2_find.
    destruct (List.find _ _) as [u2|] eqn:H2; cbn [fst].
    + intros [= ->]. right; left.
      apply find_some in H2 as [Hin Hk]. apply list_elem_of_In in Hin.
      apply abs_hrefs_sound in Hin as [Hu Hpage]. done.
    + intros Hu. right; right. by eapply method3_sound.
Qed.

Lemma returned_link_provenance_witness :
  (@GetSuburl.extract_subscription_url Demo.env
     (py "<a href=" ++ [dq] ++ py "/sub/abc" ++ [dq] ++ py ">copy</a>") Demo.url_b Demo.st0).1
  = Ret (Some (py "https://b.example/sub/abc"))
  ∧ ((link_url (py "https://b.example/sub/abc")
      ∧ ∃ pre post, py "<a href=" ++ [dq] ++ py "/sub/abc" ++ [dq] ++ py ">copy</a>"
                    = pre ++ py "https://b.example/sub/abc" ++ post)
     ∨ (abs_url (py "https://b.example/sub/abc")
        ∧ @has_keyword Demo.env (py "https://b.example/sub/abc") = true
        ∧ ∃ pre post, py "<a href=" ++ [dq] ++ py "/sub/abc" ++ [dq] ++ py ">copy</a>"
                      = pre ++ href_attr (py "https://b.example/sub/abc") ++ post)
     ∨ (∃ sp href,
          @BeautifulSoup Demo.env (py "<a href=" ++ [dq] ++ py "/sub/abc" ++ [dq] ++ py ">copy</a>") = Ret sp
          ∧ href ∈ @find_all_a_href Demo.env sp
          ∧ @resolves_to Demo.env Demo.url_b href
            = Ret (Some (py "https://b.example/sub/abc")))).
Proof.
  assert (Hu : (@GetSuburl.extract_subscription_url Demo.env
                  (py "<a href=" ++ [dq] ++ py "/sub/abc" ++ [dq] ++ py ">copy</a>") Demo.url_b Demo.st0).1
               = Ret (Some (py "https://b.example/sub/abc")))
    by by vm_compute.
  split; [exact Hu|].
  exact (@returned_link_provenance Demo.env _ _ _ _ Hu).
Defined.

(** ** The keywords *)

Lemma startswith_prefix (p q s : str) :
  startswith (p ++ q) s = true → startswith p s = true.
Proof.
  intros [t ->]%startswith_inv. rewrite <- app_assoc. apply startswith_app.
Qed.

Lemma contains_prefix (p q s : str) :
  contains (p ++ q) s = true → contains p s = true.
Proof.
  induction s as [|c s IH]; cbn [contains].
  - rewrite !orb_false_r. apply startswith_prefix.
  - intros [Hs | Hc]%orb_true_iff.
    + by rewrite (startswith_prefix _ _ _ Hs).
    + rewrite (IH Hc). apply orb_true_r.
Qed.

(** X18: the keyword test of [extract_subscription_url] is the test for link
    and sub alone: a URL that holds subscribe holds sub, so the keyword
    subscribe never changes the answer. *)
Theorem has_keyword_two_keywords `{Env} (url : str) :
  has_keyword url = contains (py "link") (lower url) || contains (py "sub") (lower url).
Proof.
  unfold has_keyword. cbn [existsb]. rewrite orb_false_r.
  destruct (contains (py "link") (lower url)); [done|]. cbn [orb].
  destruct (contains (py "subscribe") (lower url)) eqn:Hs; [|done].
  change (py "subscribe") with (py "sub" ++ py "scribe") in Hs.
  by rewrite (contains_prefix _ _ _ Hs).
Qed.
